(** * Contact-extraction pipeline of influencer-finder.py

    A shallow embedding of the core of [InfluencerFinder] (src/influencer-finder.py):
    the email and SNS regular expressions, [_extract_emails], [_extract_sns_urls],
    [_extract_sns_urls_from_links], [_extract_company_name], [extract_contact_info]
    and [process_search_results].

    Python [str] values are lists of Unicode code points ([list N]).  The result
    dictionaries are stdpp [gmap string pstr]; the small SNS dictionaries, whose
    insertion order is iterated by the code, are association lists. *)

From Stdlib Require Import NArith Ascii String List Bool Lia.
From stdpp Require Import base gmap list strings.
Import ListNotations.

Open Scope list_scope.

(** ** Python strings *)

(** A Python [str]: its sequence of code points. *)
Definition pstr := list N.

(** ASCII literals as code-point lists. *)
Fixpoint s2p (s : string) : pstr :=
  match s with
  | EmptyString => []
  | String a s' => N_of_ascii a :: s2p s'
  end.

Definition in_range (lo hi c : N) : bool := (lo <=? c)%N && (c <=? hi)%N.

Definition is_upper (c : N) : bool := in_range 65 90 c.
Definition is_lower (c : N) : bool := in_range 97 122 c.
Definition is_digit (c : N) : bool := in_range 48 57 c.
(** [[a-zA-Z]] *)
Definition is_alpha (c : N) : bool := is_upper c || is_lower c.
(** [[a-zA-Z0-9]] *)
Definition is_alnum (c : N) : bool := is_alpha c || is_digit c.

Definition mem (c : N) (l : pstr) : bool := existsb (N.eqb c) l.

(** [s.startswith(p)] *)
Fixpoint startswith (s p : pstr) {struct p} : bool :=
  match p with
  | [] => true
  | c :: p' => match s with
               | d :: s' => N.eqb c d && startswith s' p'
               | [] => false
               end
  end.

(** [needle in hay] for two [str]s. *)
Fixpoint str_in (needle hay : pstr) : bool :=
  startswith hay needle ||
  match hay with
  | [] => false
  | _ :: hay' => str_in needle hay'
  end.

(** ** A backtracking matcher for the regular expressions of the class

    Every pattern of [__init__] is a sequence of: literal text, an optional
    literal group [(?:lit)?] or [x?], an alternation of literals [(?:a|b|c)],
    and a greedy repetition [[class]{k,}] of a character class.  [mat rs s]
    follows [re]'s backtracking order (greedy repetitions try the longest run
    first, optional groups try the group first, alternatives left to right)
    and returns the rest of [s] after the first successful match at the front
    of [s]. *)
Inductive atom :=
| ALit (l : pstr)
| AOpt (l : pstr)
| AAlt (ls : list pstr)
| AClass (p : N -> bool) (k : nat).

Fixpoint strip_prefix (l s : pstr) : option pstr :=
  match l with
  | [] => Some s
  | c :: l' => match s with
               | d :: s' => if N.eqb c d then strip_prefix l' s' else None
               | [] => None
               end
  end.

(** Length of the longest prefix of [s] in the class [p]. *)
Fixpoint run (p : N -> bool) (s : pstr) : nat :=
  match s with
  | c :: s' => if p c then S (run p s') else 0
  | [] => 0
  end.

(** Backtracking over the repetition count: [c], [c-1], ..., [k]. *)
Fixpoint try_counts (k : nat) (s : pstr) (cont : pstr -> option pstr) (c : nat)
  : option pstr :=
  if Nat.ltb c k then None
  else match cont (skipn c s) with
       | Some r => Some r
       | None => match c with 0 => None | S c' => try_counts k s cont c' end
       end.

Fixpoint first_some (f : pstr -> option pstr) (ls : list pstr) : option pstr :=
  match ls with
  | [] => None
  | l :: ls' => match f l with Some r => Some r | None => first_some f ls' end
  end.

Fixpoint mat (rs : list atom) (s : pstr) : option pstr :=
  match rs with
  | [] => Some s
  | ALit l :: rs' =>
      match strip_prefix l s with Some s' => mat rs' s' | None => None end
  | AOpt l :: rs' =>
      match (match strip_prefix l s with Some s' => mat rs' s' | None => None end) with
      | Some r => Some r
      | None => mat rs' s
      end
  | AAlt ls :: rs' =>
      first_some (fun l => match strip_prefix l s with
                           | Some s' => mat rs' s' | None => None end) ls
  | AClass p k :: rs' => try_counts k s (mat rs') (run p s)
  end.

(** [pattern.findall(s)] for a pattern without capturing groups: scan left to
    right, collect each match, resume after it (one character further after an
    empty match, or after a failed attempt). *)
Fixpoint findall_go (rs : list atom) (fuel : nat) (s : pstr) : list pstr :=
  match fuel with
  | 0 => []
  | S f =>
      match mat rs s with
      | Some r =>
          firstn (length s - length r) s ::
          (if Nat.ltb (length r) (length s) then findall_go rs f r
           else match s with [] => [] | _ :: t => findall_go rs f t end)
      | None => match s with [] => [] | _ :: t => findall_go rs f t end
      end
  end.

Definition findall (rs : list atom) (s : pstr) : list pstr :=
  findall_go rs (S (length s)) s.

(** ** The patterns of [InfluencerFinder.__init__] *)

(** [[a-zA-Z0-9._%+-]] *)
Definition email_local (c : N) : bool := is_alnum c || mem c (s2p "._%+-").
(** [[a-zA-Z0-9.-]] *)
Definition email_domain (c : N) : bool := is_alnum c || mem c (s2p ".-").

(** [r'[a-zA-Z0-9._%+-]+@[a-zA-Z0-9.-]+\.[a-zA-Z]{2,}'] *)
Definition email_pattern : list atom :=
  [AClass email_local 1; ALit (s2p "@"); AClass email_domain 1;
   ALit (s2p "."); AClass is_alpha 2].

(** [https?://(?:www\.)?] *)
Definition scheme_www : list atom :=
  [ALit (s2p "http"); AOpt (s2p "s"); ALit (s2p "://"); AOpt (s2p "www.")].

Definition ig_handle (c : N) : bool := is_alnum c || mem c (s2p "_.").
Definition tt_handle (c : N) : bool := is_alnum c || mem c (s2p "_.").
Definition yt_id (c : N) : bool := is_alnum c || mem c (s2p "_-").
Definition x_handle (c : N) : bool := is_alnum c || mem c (s2p "_").
Definition fb_handle (c : N) : bool := is_alnum c || mem c (s2p ".").

Definition ig_path : list atom :=
  [ALit (s2p "instagram.com/"); AClass ig_handle 1; AOpt (s2p "/")].
Definition tt_path : list atom :=
  [ALit (s2p "tiktok.com/@"); AClass tt_handle 1; AOpt (s2p "/")].
Definition yt_path_channel : list atom :=
  [ALit (s2p "youtube.com/"); AAlt [s2p "channel"; s2p "user"; s2p "c"];
   ALit (s2p "/"); AClass yt_id 1; AOpt (s2p "/")].
Definition yt_path_handle : list atom :=
  [ALit (s2p "youtube.com/@"); AClass yt_id 1; AOpt (s2p "/")].
Definition x_path : list atom :=
  [AAlt [s2p "twitter"; s2p "x"]; ALit (s2p ".com/"); AClass x_handle 1; AOpt (s2p "/")].
Definition fb_path : list atom :=
  [ALit (s2p "facebook.com/"); AClass fb_handle 1; AOpt (s2p "/")].

(** [self.sns_patterns], in its dictionary order. *)
Definition sns_patterns : list (string * list (list atom)) :=
  [("instagram", [scheme_www ++ ig_path; ig_path]);
   ("tiktok", [scheme_www ++ tt_path; tt_path]);
   ("youtube", [scheme_www ++ yt_path_channel; scheme_www ++ yt_path_handle;
                yt_path_channel; yt_path_handle]);
   ("x_twitter", [scheme_www ++ x_path; x_path]);
   ("facebook", [scheme_www ++ fb_path; fb_path])].

(** ** Python dictionaries *)

(** An insertion-ordered Python [dict] from [str] to [str], as an association
    list: assignment replaces the value of an existing key in place and
    appends a new key at the end. *)
Definition odict := list (string * pstr).

Fixpoint dset (k : string) (v : pstr) (d : odict) : odict :=
  match d with
  | [] => [(k, v)]
  | (k', v') :: d' => if String.eqb k k' then (k, v) :: d' else (k', v') :: dset k v d'
  end.

Fixpoint dlookup (k : string) (d : odict) : option pstr :=
  match d with
  | [] => None
  | (k', v) :: d' => if String.eqb k k' then Some v else dlookup k d'
  end.

(** [d.update(e)] *)
Definition dupdate (d e : odict) : odict :=
  fold_left (fun acc kv => dset (fst kv) (snd kv) acc) e d.

(** The search-result records: [dict[str, str]]. *)
Abbreviation dict := (gmap string pstr).

(** [d.get(k, '')] *)
Definition dget (k : string) (d : dict) : pstr :=
  match d !! k with Some v => v | None => [] end.

(** ** [_extract_emails]

    [list(set(emails))]: the order in which CPython lists a set of strings
    depends on the per-process string hash seed.  It is a parameter [setlist]
    of the functions that use it; [valid_setlist] says it lists each
    distinct element exactly once. *)
Definition valid_setlist (setlist : list pstr -> list pstr) : Prop :=
  forall xs, List.NoDup (setlist xs) /\ forall y, In y (setlist xs) <-> In y xs.

Definition extract_emails (setlist : list pstr -> list pstr) (text : pstr) : list pstr :=
  match text with
  | [] => []
  | _ => setlist (findall email_pattern text)
  end.

(** ** [_extract_sns_urls] *)

Definition sns_init : odict :=
  [("instagram", []); ("tiktok", []); ("youtube", []); ("x", []); ("facebook", [])].

(** [if not url.startswith('http'): url = 'https://' + url] *)
Definition normalize_url (u : pstr) : pstr :=
  if startswith u (s2p "http") then u else s2p "https://" ++ u.

(** The inner loop: the first match of the first pattern that has one
    ([matches[0]] followed by [break]). *)
Fixpoint first_match (pats : list (list atom)) (text : pstr) : option pstr :=
  match pats with
  | [] => None
  | p :: ps => match findall p text with
               | m :: _ => Some m
               | [] => first_match ps text
               end
  end.

Definition sns_key (t : string) : string :=
  if String.eqb t "x_twitter" then "x" else t.

Definition extract_sns_urls (text : pstr) : odict :=
  fold_left (fun acc tp =>
               match first_match (snd tp) text with
               | Some m => dset (sns_key (fst tp)) (normalize_url m) acc
               | None => acc
               end) sns_patterns sns_init.

(** ** [_extract_sns_urls_from_links]

    [hrefs] are the [href] attributes of [soup.find_all('a', href=True)] in
    document order.  [classify_href] is the [if]/[elif] chain of the loop. *)
Definition classify_href (href : pstr) : option string :=
  if str_in (s2p "instagram.com") href then Some "instagram"
  else if str_in (s2p "tiktok.com") href then Some "tiktok"
  else if str_in (s2p "youtube.com") href || str_in (s2p "youtu.be") href then Some "youtube"
  else if str_in (s2p "twitter.com") href || str_in (s2p "x.com") href then Some "x"
  else if str_in (s2p "facebook.com") href then Some "facebook"
  else None.

Definition extract_sns_urls_from_links (hrefs : list pstr) : odict :=
  fold_left (fun acc href =>
               match classify_href href with
               | Some k => dset k href acc
               | None => acc
               end) hrefs sns_init.

(** ** [_extract_company_name] *)

(** [str.isspace] code points. *)
Definition is_space (c : N) : bool :=
  in_range 9 13 c || in_range 28 32 c || N.eqb c 133 || N.eqb c 160 ||
  N.eqb c 5760 || in_range 8192 8202 c || N.eqb c 8232 || N.eqb c 8233 ||
  N.eqb c 8239 || N.eqb c 8287 || N.eqb c 12288.

Fixpoint lstrip (s : pstr) : pstr :=
  match s with
  | c :: s' => if is_space c then lstrip s' else s
  | [] => []
  end.

Definition rstrip (s : pstr) : pstr := rev (lstrip (rev s)).

(** [s.strip()] *)
Definition strip (s : pstr) : pstr := rstrip (lstrip s).

(** [s.split(sep)[0]] for a one-character separator. *)
Fixpoint split0 (sep : N) (s : pstr) : pstr :=
  match s with
  | c :: s' => if N.eqb c sep then [] else c :: split0 sep s'
  | [] => []
  end.

(** ['|', '-', ':', '：', '／', '/', '｜'] *)
Definition separators : pstr := [124; 45; 58; 65306; 65295; 47; 65372]%N.

Definition extract_company_name (title : pstr) : pstr :=
  fold_left (fun company_name sep =>
               if mem sep company_name then strip (split0 sep company_name)
               else company_name) separators title.

(** ** [extract_contact_info]

    A fetched page: [response.text] and what BeautifulSoup derives from it
    ([soup.get_text()] after removing [script] and [style], and the [href]s
    of the anchors).  [fetch url] is [None] when [session.get],
    [raise_for_status] or the decoding of the body raises: the [except]
    branch then returns [result] as it is. *)
Record page := {
  html_source : pstr;
  soup_text : pstr;
  soup_hrefs : list pstr
}.

(** [for sns_type, url in sns_urls.items(): if url: result[f'{sns_type}_url'] = url] *)
Definition set_result_urls (sns : odict) (r : dict) : dict :=
  fold_left (fun r kv =>
               match snd kv with
               | [] => r
               | _ => <[ (fst kv ++ "_url")%string := snd kv ]> r
               end) sns r.

Definition extract_contact_info (setlist : list pstr -> list pstr)
    (fetch : pstr -> option page) (result : dict) : dict :=
  let url := dget "website_url" result in
  match url with
  | [] => result
  | _ =>
      match fetch url with
      | None => result
      | Some pg =>
          let emails := extract_emails setlist (soup_text pg) ++
                        extract_emails setlist (html_source pg) in
          let result1 := match emails with
                         | e :: _ => <["email" := e]> result
                         | [] => result
                         end in
          let sns_urls := dupdate (extract_sns_urls (html_source pg))
                                  (extract_sns_urls_from_links (soup_hrefs pg)) in
          set_result_urls sns_urls result1
      end
  end.

(** ** [process_search_results]

    [None] is the [KeyError] raised by [result['title']] in the progress
    message.  The progress bar and the random pause do not affect the
    result.  [result.copy()] is a value copy. *)
Definition process_one (setlist : list pstr -> list pstr)
    (fetch : pstr -> option page) (result : dict) : dict :=
  match dget "website_url" result with
  | [] => result
  | _ => extract_contact_info setlist fetch result
  end.

Fixpoint process_go (setlist : list pstr -> list pstr) (fetch : pstr -> option page)
    (results : list dict) : option (list dict) :=
  match results with
  | [] => Some []
  | result :: rest =>
      match result !! "title" with
      | None => None
      | Some _ =>
          match process_go setlist fetch rest with
          | Some out => Some (process_one setlist fetch result :: out)
          | None => None
          end
      end
  end.

Definition process_search_results (setlist : list pstr -> list pstr)
    (fetch : pstr -> option page) (results : list dict) (max_pages_to_scan : nat)
  : option (list dict) :=
  process_go setlist fetch (firstn max_pages_to_scan results).

(** The record built by [search_google] for one search item. *)
Definition format_result (title link snippet : pstr) : dict :=
  <["company_name" := extract_company_name title]> (
  <["website_url" := link]> (
  <["title" := title]> (
  <["snippet" := snippet]> (
  <["instagram_url" := []]> (
  <["tiktok_url" := []]> (
  <["youtube_url" := []]> (
  <["x_url" := []]> (
  <["facebook_url" := []]> (
  <["email" := []]> (
  <["source" := s2p "Google Search"]> ∅)))))))))).

(** Order-preserving de-duplication, and a reversed one: two listings a
    CPython set may produce. *)
Fixpoint dedup (xs : list pstr) : list pstr :=
  match xs with
  | [] => []
  | x :: xs' => x :: List.filter (fun y => negb (bool_decide (y = x))) (dedup xs')
  end.

Definition rev_dedup (xs : list pstr) : list pstr := rev (dedup xs).

(** ** Spec-side definitions, compared with the code *)

(** The contact-signal keys of a result record. *)
Definition signal_keys : list string :=
  ["email"; "instagram_url"; "tiktok_url"; "youtube_url"; "x_url"; "facebook_url"].

Definition platform_keys : list string :=
  ["instagram"; "tiktok"; "youtube"; "x"; "facebook"].

Definition has_title (r : dict) : Prop := is_Some (r !! "title").

(** A candidate as the search step produces it: every signal field empty. *)
Definition fresh_candidate (r : dict) : Prop :=
  Forall (fun k => dget k r = []) signal_keys.

(** The strings a pattern matches as a whole. *)
Fixpoint lang (rs : list atom) (m : pstr) : Prop :=
  match rs with
  | [] => m = []
  | ALit l :: rs' => exists m', m = l ++ m' /\ lang rs' m'
  | AOpt l :: rs' => (exists m', m = l ++ m' /\ lang rs' m') \/ lang rs' m
  | AAlt ls :: rs' => exists l m', In l ls /\ m = l ++ m' /\ lang rs' m'
  | AClass p k :: rs' =>
      exists x m', m = x ++ m' /\ k <= length x /\ Forall (fun c => p c = true) x /\ lang rs' m'
  end.

(** The canonical email syntax: [local@domain.tld], an ASCII local part, a
    domain, a top-level domain of at least two letters. *)
Definition is_email (e : pstr) : Prop :=
  exists l d t,
    e = l ++ [64%N] ++ d ++ [46%N] ++ t /\
    l <> [] /\ Forall (fun c => email_local c = true) l /\
    d <> [] /\ Forall (fun c => email_domain c = true) d /\
    2 <= length t /\ Forall (fun c => is_alpha c = true) t.

(** The characters an email match can contain: [[a-zA-Z0-9._%+-@]]. *)
Definition email_char (c : N) : bool := email_local c || N.eqb c 64.

(** The selection rule of the spec: the first email occurring in the visible
    text, else the first one occurring in the raw markup. *)
Definition first_occurrence_email (text html : pstr) : pstr :=
  match findall email_pattern text with
  | e :: _ => e
  | [] => match findall email_pattern html with e :: _ => e | [] => [] end
  end.

Definition is_separator (c : N) : bool := mem c separators.

Fixpoint take_while (p : N -> bool) (s : pstr) : pstr :=
  match s with
  | c :: s' => if p c then c :: take_while p s' else []
  | [] => []
  end.

(** The bare-domain patterns (no [https?://] in front). *)
Definition bare_patterns : list (list atom) :=
  [ig_path; tt_path; yt_path_channel; yt_path_handle; x_path; fb_path].

(** The spec's display name: the left-most segment before the first
    separator, trimmed. *)
Definition leftmost_segment_trimmed (title : pstr) : pstr :=
  strip (take_while (fun c => negb (is_separator c)) title).

(** ** Pages used by the examples *)

Definition sample_page : page := {|
  html_source := s2p "<p>Mail info@acme.example</p><a href='https://x.com/acme'>X</a>";
  soup_text := s2p "Mail info@acme.example X";
  soup_hrefs := [s2p "https://x.com/acme"]
|}.

(** A handle written in the text, with no anchor. *)
Definition handle_page : page := {|
  html_source := s2p "<p>Follow us: instagram.com/acme</p>";
  soup_text := s2p "Follow us: instagram.com/acme";
  soup_hrefs := []
|}.

(** Two emails in the visible text. *)
Definition two_email_page : page := {|
  html_source := s2p "<p>a@b.cc d@e.ff</p>";
  soup_text := s2p "a@b.cc d@e.ff";
  soup_hrefs := []
|}.

(** ** [search_google]

    [service.cse().list(q=query, cx=cx, start=start_index).execute()] for the
    query, key and engine of the call, as a function of [start_index]: it
    raises, or returns a response without ['items'], or returns the items.
    [build_ok] is [false] when [build("customsearch", "v1", developerKey=...)]
    raises.  The items are dictionaries whose [title], [link] and [snippet]
    are strings. *)
Inductive cse_response :=
| CseError
| CseNoItems
| CseItems (items : list dict).

(** [for page in range(pages)], [page] counting up from [page], [remaining]
    iterations left; [None] is an exception. *)
Fixpoint search_pages (cse : nat -> cse_response) (remaining page : nat)
    (all_results : list dict) : option (list dict) :=
  match remaining with
  | 0 => Some all_results
  | S remaining' =>
      match cse (page * 10 + 1) with
      | CseError => None
      | CseNoItems => Some all_results
      | CseItems items => search_pages cse remaining' (S page) (all_results ++ items)
      end
  end.

(** The record built for one item. *)
Definition format_item (item : dict) : dict :=
  let title := dget "title" item in
  format_result title (dget "link" item) (dget "snippet" item).

Definition search_google (build_ok : bool) (cse : nat -> cse_response)
    (num_results : nat) : list dict :=
  if build_ok then
    match search_pages cse ((num_results + 9) / 10) 0 [] with
    | Some all_results => map format_item (firstn num_results all_results)
    | None => []
    end
  else [].

(** ** [main]: the search button

    [query = search_keywords; if search_categories: query += " " + " ".join(...)] *)
Fixpoint py_join (sep : pstr) (xs : list pstr) : pstr :=
  match xs with
  | [] => []
  | [x] => x
  | x :: xs' => x ++ sep ++ py_join sep xs'
  end.

Definition build_query (search_keywords : pstr) (search_categories : list pstr) : pstr :=
  match search_categories with
  | [] => search_keywords
  | _ => search_keywords ++ s2p " " ++ py_join (s2p " ") search_categories
  end.

(** The search branch once the keywords and the API settings are present:
    [None] is the "no results" error, [Some processed] what is stored in
    [st.session_state.search_results] and [filtered_results]. *)
Definition search_flow (setlist : list pstr -> list pstr) (fetch : pstr -> option page)
    (build_ok : bool) (cse : nat -> cse_response) (num_results : nat)
  : option (list dict) :=
  let results := search_google build_ok cse num_results in
  match results with
  | [] => None
  | _ => process_search_results setlist fetch results num_results
  end.

(** ** [main]: the results tab *)

(** Python truthiness of [item.get(k)] for a [str] value or a missing key. *)
Definition truthy (v : pstr) : bool :=
  match v with [] => false | _ => true end.

(** [[item for item in filtered_results if item.get(k)]] *)
Definition keep_if (k : string) (rs : list dict) : list dict :=
  List.filter (fun item => truthy (dget k item)) rs.

Definition apply_filters (filter_instagram filter_tiktok filter_youtube filter_email : bool)
    (search_results : list dict) : list dict :=
  let r1 := if filter_instagram then keep_if "instagram_url" search_results
            else search_results in
  let r2 := if filter_tiktok then keep_if "tiktok_url" r1 else r1 in
  let r3 := if filter_youtube then keep_if "youtube_url" r2 else r2 in
  if filter_email then keep_if "email" r3 else r3.

(** ["✓" if item.get(k) else ""] *)
Definition check_mark (v : pstr) : pstr :=
  if truthy v then [10003%N] else [].

(** A row of [table_data], in its column order: name, website, Instagram,
    TikTok, YouTube, X, email. *)
Definition table_row (item : dict) : list pstr :=
  [dget "company_name" item; dget "website_url" item;
   check_mark (dget "instagram_url" item); check_mark (dget "tiktok_url" item);
   check_mark (dget "youtube_url" item); check_mark (dget "x_url" item);
   check_mark (dget "email" item)].

Definition table_data (filtered_results : list dict) : list (list pstr) :=
  map table_row filtered_results.

(** ** The exports *)

(** The output columns of [export_to_csv] and [export_to_google_spreadsheet]. *)
Definition columns : list string :=
  ["company_name"; "website_url"; "instagram_url"; "tiktok_url";
   "youtube_url"; "x_url"; "facebook_url"; "email"].

(** [{col: item.get(col, '') for col in columns}], in key order. *)
Definition filter_item (item : dict) : list (string * pstr) :=
  map (fun col => (col, dget col item)) columns.

(** [pd.DataFrame(filtered_data)]: [columns.tolist()] and [values.tolist()].
    Every row has the keys [columns] in this order, so the frame's columns
    are the first row's keys; no row, no column. *)
Definition df_header (filtered_data : list (list (string * pstr))) : list pstr :=
  match filtered_data with
  | [] => []
  | row :: _ => map (fun kv => s2p (fst kv)) row
  end.

Definition df_values (filtered_data : list (list (string * pstr))) : list (list pstr) :=
  map (map snd) filtered_data.

(** ** [export_to_google_spreadsheet]

    The environment: [json_dump s] is the text [json.dump(json.loads(s), temp)]
    writes ([None] when [json.loads] raises); [temp_path] the name of the
    [NamedTemporaryFile]; the other fields say whether each Google call
    succeeds ([from_service_account_file] with [gspread.authorize],
    [open_by_key], [worksheet.clear], [add_worksheet], [worksheet.update]). *)
Record sheets_env := {
  json_dump : pstr -> option pstr;
  temp_path : pstr;
  authorize_ok : bool;
  open_ok : bool;
  clear_ok : bool;
  add_ok : bool;
  update_ok : bool
}.

(** The files on disk and the worksheets of the spreadsheet, by path and by
    title. *)
Record sheets_state := {
  files : list (pstr * pstr);
  worksheets : list (pstr * list (list pstr))
}.

Fixpoint alookup {V} (k : pstr) (l : list (pstr * V)) : option V :=
  match l with
  | [] => None
  | (k', v) :: l' => if bool_decide (k = k') then Some v else alookup k l'
  end.

(** Assignment: replace in place, or append. *)
Fixpoint aset {V} (k : pstr) (v : V) (l : list (pstr * V)) : list (pstr * V) :=
  match l with
  | [] => [(k, v)]
  | (k', v') :: l' => if bool_decide (k = k') then (k, v) :: l' else (k', v') :: aset k v l'
  end.

(** [os.unlink] *)
Fixpoint aremove {V} (k : pstr) (l : list (pstr * V)) : list (pstr * V) :=
  match l with
  | [] => []
  | (k', v') :: l' => if bool_decide (k = k') then aremove k l' else (k', v') :: aremove k l'
  end.

Definition set_files (f : list (pstr * pstr)) (s : sheets_state) : sheets_state :=
  {| files := f; worksheets := worksheets s |}.

Definition set_sheets (w : list (pstr * list (list pstr))) (s : sheets_state) : sheets_state :=
  {| files := files s; worksheets := w |}.

(** [worksheet.update([header] + values)] into the (cleared or new) sheet. *)
Definition sheet_update (env : sheets_env) (sheet_name : pstr) (cells : list (list pstr))
    (s : sheets_state) : bool * sheets_state :=
  if update_ok env then (true, set_sheets (aset sheet_name cells (worksheets s)) s)
  else (false, s).

Definition export_to_google_spreadsheet (env : sheets_env) (data : list dict)
    (service_account_json sheet_name : pstr) (s0 : sheets_state) : bool * sheets_state :=
  let filtered_data := map filter_item data in
  let s1 := set_files (aset (temp_path env) [] (files s0)) s0 in
  match json_dump env service_account_json with
  | None => (false, s1)
  | Some text =>
      let s2 := set_files (aset (temp_path env) text (files s1)) s1 in
      if negb (authorize_ok env) then (false, s2) else
      let s3 := set_files (aremove (temp_path env) (files s2)) s2 in
      if negb (open_ok env) then (false, s3) else
      let cells := df_header filtered_data :: df_values filtered_data in
      match alookup sheet_name (worksheets s3) with
      | Some _ =>
          if clear_ok env
          then sheet_update env sheet_name cells (set_sheets (aset sheet_name [] (worksheets s3)) s3)
          else (false, s3)
      | None =>
          if add_ok env
          then sheet_update env sheet_name cells (set_sheets (aset sheet_name [] (worksheets s3)) s3)
          else (false, s3)
      end
  end.

(** ** [export_to_csv]

    [df.to_csv(index=False)] writes the header row and the value rows with
    Python's [csv] writer: [QUOTE_MINIMAL], delimiter [,] (44), the double
    quote (34) as quote character, doubled inside a quoted field, and line
    terminator [os.linesep], a line feed (10).
    A field is quoted when it contains the delimiter, the quote character
    or a character of the line terminator (CPython 3.11). *)
Definition csv_special (c : N) : bool :=
  N.eqb c 44 || N.eqb c 34 || N.eqb c 10.

Definition csv_escape (f : pstr) : pstr :=
  flat_map (fun c => if N.eqb c 34 then [34%N; 34%N] else [c]) f.

Definition csv_field (f : pstr) : pstr :=
  if existsb csv_special f then [34%N] ++ csv_escape f ++ [34%N] else f.

(** A row made of one empty field is written as a quoted empty field, so
    that it is told apart from an empty row. *)
Definition csv_row (r : list pstr) : pstr :=
  match r with
  | [[]] => [34%N; 34%N; 10%N]
  | _ => py_join [44%N] (map csv_field r) ++ [10%N]
  end.

Definition to_csv (header : list pstr) (values : list (list pstr)) : pstr :=
  concat (map csv_row (header :: values)).

(** [str.encode()]: UTF-8, raising ([None]) on a surrogate code point. *)
Definition utf8_char (c : N) : option (list N) :=
  if (c <? 128)%N then Some [c]
  else if (c <? 2048)%N then Some [192 + c / 64; 128 + c mod 64]%N
  else if (55296 <=? c)%N && (c <=? 57343)%N then None
  else if (c <? 65536)%N then
    Some [224 + c / 4096; 128 + (c / 64) mod 64; 128 + c mod 64]%N
  else if (c <? 1114112)%N then
    Some [240 + c / 262144; 128 + (c / 4096) mod 64; 128 + (c / 64) mod 64;
          128 + c mod 64]%N
  else None.

Fixpoint utf8_encode (s : pstr) : option (list N) :=
  match s with
  | [] => Some []
  | c :: s' =>
      match utf8_char c, utf8_encode s' with
      | Some b, Some bs => Some (b ++ bs)
      | _, _ => None
      end
  end.

(** [base64.b64encode(...).decode()]: the standard alphabet, [=] padding. *)
Definition b64_char (v : N) : N :=
  if (v <? 26)%N then 65 + v
  else if (v <? 52)%N then 97 + (v - 26)
  else if (v <? 62)%N then 48 + (v - 52)
  else if (v =? 62)%N then 43
  else 47.

Fixpoint b64encode (bs : list N) : pstr :=
  match bs with
  | a :: b :: c :: rest =>
      [b64_char (a / 4); b64_char ((a mod 4) * 16 + b / 16);
       b64_char ((b mod 16) * 4 + c / 64); b64_char (c mod 64)]%N ++ b64encode rest
  | [a; b] =>
      [b64_char (a / 4); b64_char ((a mod 4) * 16 + b / 16);
       b64_char ((b mod 16) * 4); 61]%N
  | [a] => [b64_char (a / 4); b64_char ((a mod 4) * 16); 61; 61]%N
  | [] => []
  end.

(** The link text, CSVファイルをダウンロード. *)
Definition csv_link_text : pstr :=
  [67; 83; 86; 12501; 12449; 12452; 12523; 12434; 12480; 12454; 12531; 12525;
   12540; 12489]%N.

(** The opening tag up to the base64 payload. *)
Definition csv_href_prefix : pstr :=
  s2p "<a href=" ++ [34%N] ++ s2p "data:file/csv;base64,".

(** Between the payload and the file name. *)
Definition csv_href_middle : pstr :=
  [34%N] ++ s2p " download=" ++ [34%N].

(** After the file name: the end of the tag, the link text and the closing tag. *)
Definition csv_href_suffix : pstr :=
  [34%N] ++ s2p ">" ++ csv_link_text ++ s2p "</a>".

Definition export_to_csv (data : list dict) (filename : pstr) : option pstr :=
  match data with
  | [] => None
  | _ =>
      let filtered_data := map filter_item data in
      let csv := to_csv (df_header filtered_data) (df_values filtered_data) in
      match utf8_encode csv with
      | None => None
      | Some bytes =>
          Some (csv_href_prefix ++ b64encode bytes ++ csv_href_middle ++ filename ++
                csv_href_suffix)
      end
  end.

(** *** Readers of the exported link, to compare with the writers above *)

(** A Unicode scalar value: what UTF-8 can encode. *)
Definition scalar_value (c : N) : bool :=
  (c <? 55296)%N || ((57343 <? c)%N && (c <? 1114112)%N).





Definition cont (b : N) : bool := (128 <=? b)%N && (b <? 192)%N.





Definition csv_rows (data : list dict) : list (list pstr) :=
  map s2p columns :: map (fun item => map (fun col => dget col item) columns) data.

(** An environment in which every call succeeds, a spreadsheet with one
    sheet, and one record, used by the examples. *)
Definition sample_env (update_ok : bool) : sheets_env := {|
  json_dump := fun j => Some j; temp_path := s2p "/tmp/tmpkey.json";
  authorize_ok := true; open_ok := true; clear_ok := true; add_ok := true;
  update_ok := update_ok
|}.

Definition sample_state : sheets_state := {|
  files := []; worksheets := [(s2p "Sheet1", [[s2p "old"]])]
|}.

Definition sample_record : dict :=
  format_result (s2p "Acme | Home") (s2p "https://acme.example") (s2p "snip").

(** * Pipeline orchestrator *)
Section Orchestrator.

Variable setlist : list pstr -> list pstr.
Variable fetch : pstr -> option page.

Lemma process_go_map (rs : list dict) :
  Forall has_title rs ->
  process_go setlist fetch rs = Some (map (process_one setlist fetch) rs).
Proof.
  induction rs as [|r rs IH]; intros Hall; simpl; [reflexivity|].
  inversion Hall as [|? ? [v Hv] Hrest]; subst.
  rewrite Hv, IH by exact Hrest. reflexivity.
Qed.

Lemma process_one_fetch_fails (c : dict) :
  fetch (dget "website_url" c) = None ->
  process_one setlist fetch c = c.
Proof.
  intros Hf. unfold process_one, extract_contact_info.
  destruct (dget "website_url" c) eqn:Hu; [reflexivity|].
  rewrite Hf. reflexivity.
Qed.

End Orchestrator.

Lemma format_result_title (title link snippet : pstr) :
  format_result title link snippet !! "title" = Some title.
Proof. reflexivity. Qed.

Lemma format_result_fresh (title link snippet : pstr) :
  fresh_candidate (format_result title link snippet).
Proof. repeat constructor. Qed.

(** * Keys written by the extractor *)

Definition keys_in (K : list string) (d : odict) : Prop :=
  Forall (fun kv => In (fst kv) K) d.

Lemma dset_keys_in (K : list string) (k : string) (v : pstr) (d : odict) :
  In k K -> keys_in K d -> keys_in K (dset k v d).
Proof.
  intros Hk. induction d as [|[k' v'] d IH]; intros Hd; simpl.
  - repeat constructor. exact Hk.
  - inversion Hd; subst. destruct (String.eqb k k').
    + constructor; assumption.
    + constructor; [assumption|]. apply IH. assumption.
Qed.

Lemma dupdate_keys_in (K : list string) (d e : odict) :
  keys_in K d -> keys_in K e -> keys_in K (dupdate d e).
Proof.
  unfold dupdate. revert d. induction e as [|[k v] e IH]; intros d Hd He; simpl; [exact Hd|].
  inversion He; subst. apply IH; [apply dset_keys_in|]; assumption.
Qed.

Lemma sns_init_keys : keys_in platform_keys sns_init.
Proof. repeat constructor; simpl; tauto. Qed.

Lemma extract_sns_urls_keys (text : pstr) :
  keys_in platform_keys (extract_sns_urls text).
Proof.
  unfold extract_sns_urls.
  assert (Hpl : Forall (fun tp : string * list (list atom) => In (sns_key (fst tp)) platform_keys)
                       sns_patterns) by (repeat constructor; simpl; tauto).
  generalize sns_init_keys. generalize sns_init.
  induction sns_patterns as [|tp l IH]; intros d Hd; simpl; [exact Hd|].
  inversion Hpl; subst. apply IH; [assumption|].
  destruct (first_match (snd tp) text); [apply dset_keys_in|]; assumption.
Qed.

Lemma links_keys (hrefs : list pstr) :
  keys_in platform_keys (extract_sns_urls_from_links hrefs).
Proof.
  unfold extract_sns_urls_from_links.
  generalize sns_init_keys. generalize sns_init.
  induction hrefs as [|h l IH]; intros d Hd; simpl; [exact Hd|].
  apply IH. destruct (classify_href h) as [k|] eqn:Hc; [|exact Hd].
  apply dset_keys_in; [|exact Hd].
  unfold classify_href in Hc.
  repeat match goal with
         | H : context [if ?b then _ else _] |- _ => destruct b
         end; inversion Hc; subst; simpl; tauto.
Qed.

Lemma set_result_urls_other (sns : odict) (r : dict) (q : string) :
  Forall (fun kv => q <> (fst kv ++ "_url")%string) sns ->
  set_result_urls sns r !! q = r !! q.
Proof.
  unfold set_result_urls. revert r.
  induction sns as [|[k v] sns IH]; intros r Hall; simpl; [reflexivity|].
  inversion Hall; subst. rewrite IH by assumption.
  destruct v; [reflexivity|]. simpl in *.
  rewrite lookup_insert_ne; [reflexivity|congruence].
Qed.

Lemma platform_url_signal (k : string) :
  In k platform_keys -> In (k ++ "_url")%string signal_keys.
Proof. simpl. intros [<-|[<-|[<-|[<-|[<-|[]]]]]]; simpl; tauto. Qed.

Lemma set_result_urls_nonsignal (sns : odict) (r : dict) (q : string) :
  keys_in platform_keys sns -> ~ In q signal_keys ->
  set_result_urls sns r !! q = r !! q.
Proof.
  intros Hk Hq. apply set_result_urls_other.
  eapply Forall_impl; [exact Hk|]. intros [k v] Hin Heq; simpl in *.
  apply Hq. subst q. apply platform_url_signal. exact Hin.
Qed.

Lemma email_not_platform_url (sns : odict) :
  keys_in platform_keys sns ->
  Forall (fun kv => "email" <> (fst kv ++ "_url")%string) sns.
Proof.
  intros Hk. eapply Forall_impl; [exact Hk|]. intros [k v] Hin; simpl in *.
  destruct Hin as [<-|[<-|[<-|[<-|[<-|[]]]]]]; discriminate.
Qed.

Lemma merged_keys (html : pstr) (hrefs : list pstr) :
  keys_in platform_keys (dupdate (extract_sns_urls html) (extract_sns_urls_from_links hrefs)).
Proof. apply dupdate_keys_in; [apply extract_sns_urls_keys|apply links_keys]. Qed.

(** * Extractor *)
Section Extractor.

Variable setlist : list pstr -> list pstr.
Variable fetch : pstr -> option page.

Lemma extract_contact_info_frame (r : dict) (q : string) :
  ~ In q signal_keys ->
  extract_contact_info setlist fetch r !! q = r !! q.
Proof.
  intros Hq. unfold extract_contact_info.
  destruct (dget "website_url" r); [reflexivity|].
  destruct (fetch _) as [pg|]; [|reflexivity].
  rewrite set_result_urls_nonsignal by (apply merged_keys || exact Hq).
  destruct (_ ++ _); [reflexivity|].
  rewrite lookup_insert_ne; [reflexivity|]. intros <-. apply Hq. simpl; tauto.
Qed.

Lemma extract_contact_info_email (r : dict) (pg : page) :
  dget "website_url" r <> [] ->
  fetch (dget "website_url" r) = Some pg ->
  extract_contact_info setlist fetch r !! "email" =
  match extract_emails setlist (soup_text pg) ++ extract_emails setlist (html_source pg) with
  | e :: _ => Some e
  | [] => r !! "email"
  end.
Proof.
  intros Hu Hf. unfold extract_contact_info.
  destruct (dget "website_url" r) eqn:Hu'; [congruence|]. rewrite Hf.
  rewrite set_result_urls_other by (apply email_not_platform_url, merged_keys).
  destruct (_ ++ _); [reflexivity|]. apply lookup_insert_eq.
Qed.

End Extractor.

(** ** The anchor scan *)

Lemma dlookup_dset_eq (k : string) (v : pstr) (d : odict) :
  dlookup k (dset k v d) = Some v.
Proof.
  induction d as [|[k' v'] d IH]; simpl.
  - rewrite String.eqb_refl. reflexivity.
  - destruct (String.eqb k k') eqn:E; simpl.
    + rewrite String.eqb_refl. reflexivity.
    + rewrite E. exact IH.
Qed.

Lemma dlookup_dset_ne (k k' : string) (v : pstr) (d : odict) :
  k <> k' -> dlookup k (dset k' v d) = dlookup k d.
Proof.
  intros Hne. induction d as [|[k'' v'] d IH]; simpl.
  - apply String.eqb_neq in Hne. rewrite Hne. reflexivity.
  - destruct (String.eqb k' k'') eqn:E; simpl.
    + apply String.eqb_eq in E. subst k''.
      apply String.eqb_neq in Hne. rewrite Hne. reflexivity.
    + destruct (String.eqb k k''); [reflexivity|exact IH].
Qed.

Lemma links_fold_other (k : string) (hrefs : list pstr) (d : odict) :
  Forall (fun h => classify_href h <> Some k) hrefs ->
  dlookup k (fold_left (fun acc href =>
               match classify_href href with
               | Some k => dset k href acc
               | None => acc
               end) hrefs d) = dlookup k d.
Proof.
  revert d. induction hrefs as [|h hrefs IH]; intros d Hall; simpl; [reflexivity|].
  inversion Hall; subst. rewrite IH by assumption.
  destruct (classify_href h) as [k'|] eqn:Hc; [|reflexivity].
  apply dlookup_dset_ne. congruence.
Qed.

(** * Display-name derivation *)

Local Abbreviation cstep := (fun company_name sep =>
  if mem sep company_name then strip (split0 sep company_name) else company_name).

Lemma mem_In (c : N) (l : pstr) : mem c l = true <-> In c l.
Proof.
  unfold mem. rewrite existsb_exists. split.
  - intros [x [Hx Hc]]. apply N.eqb_eq in Hc. subst. exact Hx.
  - intros Hc. exists c. split; [exact Hc|apply N.eqb_refl].
Qed.

Lemma In_lstrip (c : N) (s : pstr) : In c (lstrip s) -> In c s.
Proof.
  induction s as [|d s IH]; simpl; [tauto|].
  destruct (is_space d); simpl; tauto.
Qed.

Lemma In_strip (c : N) (s : pstr) : In c (strip s) -> In c s.
Proof.
  unfold strip, rstrip. intros H.
  apply In_lstrip. apply in_rev in H. apply In_lstrip in H. apply in_rev. exact H.
Qed.

Lemma In_split0 (c sep : N) (s : pstr) : In c (split0 sep s) -> In c s /\ c <> sep.
Proof.
  induction s as [|d s IH]; simpl; [tauto|].
  destruct (N.eqb d sep) eqn:E; simpl; [tauto|].
  apply N.eqb_neq in E. intros [<-|H]; [tauto|]. apply IH in H. tauto.
Qed.

Lemma cstep_chars (seps x : pstr) (c : N) :
  In c (fold_left cstep seps x) -> In c x.
Proof.
  revert x. induction seps as [|s seps IH]; intros x H; simpl in *; [exact H|].
  apply IH in H. destruct (mem s x); [|exact H].
  apply In_strip, In_split0 in H. tauto.
Qed.

Lemma cstep_no_sep (seps x : pstr) (s : N) :
  In s seps -> mem s (fold_left cstep seps x) = false.
Proof.
  revert x. induction seps as [|s0 seps IH]; intros x Hs; simpl in *; [tauto|].
  destruct Hs as [->|Hs]; [|apply IH; exact Hs].
  destruct (mem s (fold_left cstep seps (cstep x s))) eqn:E; [|reflexivity].
  apply mem_In, cstep_chars in E.
  destruct (mem s x) eqn:Ex.
  - apply In_strip, In_split0 in E. tauto.
  - apply mem_In in E. congruence.
Qed.

Lemma cstep_id (seps x : pstr) :
  (forall s, In s seps -> mem s x = false) -> fold_left cstep seps x = x.
Proof.
  induction seps as [|s seps IH]; intros H; simpl; [reflexivity|].
  rewrite (H s (or_introl eq_refl)). apply IH. intros s' Hs'. apply H. right. exact Hs'.
Qed.

(** ** [strip] *)

Definition starts_ok (s : pstr) : Prop :=
  match s with [] => True | c :: _ => is_space c = false end.

Lemma lstrip_app_spaces (w z : pstr) :
  Forall (fun c => is_space c = true) w -> lstrip (w ++ z) = lstrip z.
Proof. induction 1 as [|c w Hc _ IH]; simpl; [reflexivity|]. rewrite Hc. exact IH. Qed.

Lemma lstrip_split (s : pstr) :
  exists w, s = w ++ lstrip s /\ Forall (fun c => is_space c = true) w.
Proof.
  induction s as [|c s [w [Hs Hw]]]; simpl; [exists []; auto|].
  destruct (is_space c) eqn:E.
  - exists (c :: w). simpl. rewrite <- Hs. auto.
  - exists []. auto.
Qed.

Lemma lstrip_starts_ok (s : pstr) : starts_ok (lstrip s).
Proof.
  induction s as [|c s IH]; simpl; [exact I|].
  destruct (is_space c) eqn:E; [exact IH|exact E].
Qed.

Lemma lstrip_ok (s : pstr) : starts_ok s -> lstrip s = s.
Proof. destruct s as [|c s]; simpl; [reflexivity|]. intros ->. reflexivity. Qed.

Lemma rstrip_app_spaces (c w : pstr) :
  Forall (fun x => is_space x = true) w -> rstrip (c ++ w) = rstrip c.
Proof.
  intros Hw. unfold rstrip. rewrite rev_app_distr, lstrip_app_spaces; [reflexivity|].
  apply Forall_rev. exact Hw.
Qed.

Lemma rstrip_split (s : pstr) :
  exists w, s = rstrip s ++ w /\ Forall (fun c => is_space c = true) w.
Proof.
  destruct (lstrip_split (rev s)) as [w [Hs Hw]].
  exists (rev w). split; [|apply Forall_rev; exact Hw].
  unfold rstrip. rewrite <- rev_app_distr, <- Hs, rev_involutive. reflexivity.
Qed.

Lemma rstrip_idem (s : pstr) : rstrip (rstrip s) = rstrip s.
Proof.
  unfold rstrip. rewrite rev_involutive. f_equal.
  apply lstrip_ok, lstrip_starts_ok.
Qed.

Lemma rstrip_starts_ok (s : pstr) : starts_ok s -> starts_ok (rstrip s).
Proof.
  destruct (rstrip_split s) as [w [Hs _]].
  destruct (rstrip s) as [|c r]; simpl; [auto|].
  rewrite Hs. simpl. auto.
Qed.

Lemma strip_idem (s : pstr) : strip (strip s) = strip s.
Proof.
  unfold strip. rewrite (lstrip_ok (rstrip (lstrip s))).
  - apply rstrip_idem.
  - apply rstrip_starts_ok, lstrip_starts_ok.
Qed.

(** ** [take_while] *)

Lemma take_while_app (P : N -> bool) (c w : pstr) :
  take_while P (c ++ w) = if forallb P c then c ++ take_while P w else take_while P c.
Proof.
  induction c as [|x c IH]; simpl; [reflexivity|].
  destruct (P x); simpl; [|reflexivity].
  rewrite IH. destruct (forallb P c); reflexivity.
Qed.

Lemma take_while_all (P : N -> bool) (w : pstr) :
  forallb P w = true -> take_while P w = w.
Proof.
  induction w as [|x w IH]; simpl; [reflexivity|].
  intros H. apply andb_prop in H as [-> H]. rewrite IH by exact H. reflexivity.
Qed.

Lemma take_while_starts_ok (P : N -> bool) (s : pstr) :
  starts_ok s -> starts_ok (take_while P s).
Proof. destruct s as [|c s]; simpl; [auto|]. destruct (P c); simpl; auto. Qed.

Lemma take_while_ext (P Q : N -> bool) (s : pstr) :
  (forall c, In c s -> P c = Q c) -> take_while P s = take_while Q s.
Proof.
  induction s as [|c s IH]; intros H; simpl; [reflexivity|].
  rewrite (H c (or_introl eq_refl)). rewrite IH; [reflexivity|].
  intros d Hd. apply H. right. exact Hd.
Qed.

Lemma spaces_forallb (P : N -> bool) (w : pstr) :
  (forall c, is_space c = true -> P c = true) ->
  Forall (fun c => is_space c = true) w -> forallb P w = true.
Proof.
  intros HP Hw. apply forallb_forall. intros c Hc.
  apply HP. rewrite List.Forall_forall in Hw. apply Hw. exact Hc.
Qed.

Lemma rstrip_take_while (P : N -> bool) (z : pstr) :
  (forall c, is_space c = true -> P c = true) ->
  rstrip (take_while P (rstrip z)) = rstrip (take_while P z).
Proof.
  intros HP. destruct (rstrip_split z) as [w [Hz Hw]].
  transitivity (rstrip (take_while P (rstrip z ++ w))); [|rewrite <- Hz; reflexivity].
  rewrite take_while_app.
  destruct (forallb P (rstrip z)) eqn:E.
  - rewrite take_while_all by exact E.
    rewrite take_while_all by (apply spaces_forallb; assumption).
    rewrite rstrip_app_spaces by exact Hw. reflexivity.
  - reflexivity.
Qed.

Lemma strip_take_while (P : N -> bool) (b : pstr) :
  (forall c, is_space c = true -> P c = true) ->
  strip (take_while P (strip b)) = strip (take_while P b).
Proof.
  intros HP. unfold strip at 2 3.
  destruct (lstrip_split b) as [w [Hb Hw]].
  set (b' := lstrip b) in *.
  assert (Hok : starts_ok b') by apply lstrip_starts_ok.
  unfold strip. rewrite lstrip_ok.
  2: apply take_while_starts_ok, rstrip_starts_ok, Hok.
  transitivity (rstrip (lstrip (take_while P (w ++ b')))); [|rewrite <- Hb; reflexivity].
  rewrite take_while_app.
  rewrite (spaces_forallb P w HP Hw).
  rewrite lstrip_app_spaces by exact Hw.
  rewrite (lstrip_ok (take_while P b')) by (apply take_while_starts_ok, Hok).
  apply rstrip_take_while. exact HP.
Qed.

Lemma existsb_ext_in (P Q : N -> bool) (s : pstr) :
  (forall c, In c s -> P c = Q c) -> existsb P s = existsb Q s.
Proof.
  induction s as [|c s IH]; intros H; simpl; [reflexivity|].
  rewrite (H c (or_introl eq_refl)). rewrite IH; [reflexivity|].
  intros d Hd. apply H. right. exact Hd.
Qed.

Lemma take_while_split0 (s : N) (ss x : pstr) :
  take_while (fun c => negb (mem c (s :: ss))) x =
  take_while (fun c => negb (mem c ss)) (split0 s x).
Proof.
  induction x as [|c x IH]; [reflexivity|].
  cbn [take_while split0].
  change (mem c (s :: ss)) with (N.eqb c s || mem c ss).
  destruct (N.eqb c s); cbn [negb orb take_while]; [reflexivity|].
  destruct (mem c ss); cbn [negb take_while]; [reflexivity|].
  f_equal. exact IH.
Qed.

Lemma existsb_forallb_negb (P : N -> bool) (s : pstr) :
  existsb P s = false -> forallb (fun c => negb (P c)) s = true.
Proof.
  induction s as [|c s IH]; simpl; [reflexivity|].
  intros H. apply orb_false_elim in H as [-> H]. simpl. apply IH. exact H.
Qed.

(** The separator loop keeps the left-most segment before any separator of
    the list, trimmed, and leaves a string without separators as it is. *)
Lemma cstep_characterisation (seps x : pstr) :
  Forall (fun s => is_space s = false) seps ->
  fold_left cstep seps x =
  if existsb (fun c => mem c seps) x
  then strip (take_while (fun c => negb (mem c seps)) x)
  else x.
Proof.
  revert x. induction seps as [|s ss IH]; intros x Hsp; simpl.
  - replace (existsb (fun _ => false) x) with false; [reflexivity|].
    induction x as [|c x IHx]; simpl; [reflexivity|exact IHx].
  - inversion Hsp as [|? ? Hs Hss]; subst.
    assert (HP : forall c, is_space c = true -> negb (mem c ss) = true).
    { intros c Hc. destruct (mem c ss) eqn:E; [|reflexivity].
      apply mem_In in E. rewrite List.Forall_forall in Hss.
      apply Hss in E. congruence. }
    destruct (mem s x) eqn:Hx.
    + rewrite IH by exact Hss.
      replace (existsb (fun c => N.eqb c s || mem c ss) x) with true.
      2:{ symmetry. apply existsb_exists. exists s. split.
          - apply mem_In. exact Hx.
          - rewrite N.eqb_refl. reflexivity. }
      change (fun c => negb (N.eqb c s || mem c ss)) with
             (fun c => negb (mem c (s :: ss))).
      rewrite take_while_split0.
      set (b := split0 s x).
      destruct (existsb (fun c => mem c ss) (strip b)) eqn:E.
      * apply strip_take_while. exact HP.
      * rewrite <- (strip_take_while _ b HP).
        rewrite (take_while_all _ (strip b)) by (apply existsb_forallb_negb; exact E).
        symmetry. apply strip_idem.
    + rewrite IH by exact Hss.
      assert (Hne : forall c, In c x -> N.eqb c s = false).
      { intros c Hc. destruct (N.eqb c s) eqn:E; [|reflexivity].
        apply N.eqb_eq in E. subst. apply mem_In in Hc. congruence. }
      rewrite (existsb_ext_in (fun c => N.eqb c s || mem c ss) (fun c => mem c ss) x).
      2:{ intros c Hc. rewrite Hne by exact Hc. reflexivity. }
      rewrite (take_while_ext (fun c => negb (N.eqb c s || mem c ss))
                              (fun c => negb (mem c ss)) x).
      2:{ intros c Hc. rewrite Hne by exact Hc. reflexivity. }
      reflexivity.
Qed.

Lemma separators_not_space : Forall (fun s => is_space s = false) separators.
Proof. repeat constructor. Qed.

(** * The matcher *)

Lemma strip_prefix_sound (l s s' : pstr) :
  strip_prefix l s = Some s' -> s = l ++ s'.
Proof.
  revert s. induction l as [|c l IH]; intros s H; simpl in *.
  - congruence.
  - destruct s as [|d s]; [discriminate|].
    destruct (N.eqb c d) eqn:E; [|discriminate].
    apply N.eqb_eq in E. subst. f_equal. apply IH. exact H.
Qed.

Lemma strip_prefix_app (l s : pstr) : strip_prefix l (l ++ s) = Some s.
Proof. induction l as [|c l IH]; simpl; [reflexivity|]. rewrite N.eqb_refl. exact IH. Qed.

Lemma run_prefix (p : N -> bool) (s : pstr) (c : nat) :
  c <= run p s ->
  Forall (fun x => p x = true) (firstn c s) /\ length (firstn c s) = c.
Proof.
  revert c. induction s as [|x s IH]; intros c Hc; simpl in *.
  - assert (c = 0) by lia. subst. simpl. auto.
  - destruct c as [|c]; simpl; [auto|].
    destruct (p x) eqn:E; [|lia].
    destruct (IH c) as [H1 H2]; [lia|]. split; [constructor; assumption|]. lia.
Qed.

Lemma try_counts_sound (k : nat) (s : pstr) (cont : pstr -> option pstr) (n : nat) (r : pstr) :
  try_counts k s cont n = Some r ->
  exists c, k <= c <= n /\ cont (skipn c s) = Some r.
Proof.
  induction n as [|n IH]; simpl; intros H.
  - destruct (Nat.ltb 0 k) eqn:E; [discriminate|]. apply Nat.ltb_ge in E.
    exists 0. split; [lia|]. destruct (cont (skipn 0 s)); congruence.
  - destruct (Nat.ltb (S n) k) eqn:E; [discriminate|]. apply Nat.ltb_ge in E.
    destruct (cont (skipn (S n) s)) eqn:Hc.
    + exists (S n). split; [lia|]. congruence.
    + destruct (IH H) as [c [Hc1 Hc2]]. exists c. split; [lia|exact Hc2].
Qed.

Lemma first_some_sound (f : pstr -> option pstr) (ls : list pstr) (r : pstr) :
  first_some f ls = Some r -> exists l, In l ls /\ f l = Some r.
Proof.
  induction ls as [|l ls IH]; simpl; intros H; [discriminate|].
  destruct (f l) eqn:E.
  - exists l. split; [left; reflexivity|congruence].
  - destruct (IH H) as [l' [H1 H2]]. exists l'. split; [right; exact H1|exact H2].
Qed.

Lemma run_le_length (p : N -> bool) (s : pstr) : run p s <= length s.
Proof. induction s as [|x s IH]; simpl; [lia|]. destruct (p x); lia. Qed.

(** What [mat] consumes is matched by the pattern. *)
Lemma mat_sound (rs : list atom) (s r : pstr) :
  mat rs s = Some r -> exists m, s = m ++ r /\ lang rs m.
Proof.
  revert s r. induction rs as [|a rs IH]; intros s r H; simpl in *.
  - exists []. split; [simpl; congruence|reflexivity].
  - destruct a as [l|l|ls|p k].
    + destruct (strip_prefix l s) as [s'|] eqn:E; [|discriminate].
      apply strip_prefix_sound in E. destruct (IH _ _ H) as [m [Hm Hl]].
      exists (l ++ m). split; [subst; rewrite app_assoc; reflexivity|].
      exists m. auto.
    + destruct (strip_prefix l s) as [s'|] eqn:E.
      * destruct (mat rs s') eqn:Hm.
        -- inversion H; subst.
           apply strip_prefix_sound in E. destruct (IH _ _ Hm) as [m [Hm' Hl]].
           exists (l ++ m). split; [subst; rewrite app_assoc; reflexivity|].
           left. exists m. auto.
        -- destruct (IH _ _ H) as [m [Hm' Hl]]. exists m. auto.
      * destruct (IH _ _ H) as [m [Hm' Hl]]. exists m. auto.
    + apply first_some_sound in H as [l [Hin Hl]].
      destruct (strip_prefix l s) as [s'|] eqn:E; [|discriminate].
      apply strip_prefix_sound in E. destruct (IH _ _ Hl) as [m [Hm Hlm]].
      exists (l ++ m). split; [subst; rewrite app_assoc; reflexivity|].
      exists l, m. auto.
    + apply try_counts_sound in H as [c [Hc Hcont]].
      destruct (IH _ _ Hcont) as [m [Hm Hl]].
      destruct (run_prefix p s c) as [Hp Hlen]; [lia|].
      exists (firstn c s ++ m). split.
      * rewrite <- app_assoc, <- Hm. symmetry. apply firstn_skipn.
      * exists (firstn c s), m. repeat split; auto. lia.
Qed.

Lemma firstn_match (m r : pstr) : firstn (length (m ++ r) - length r) (m ++ r) = m.
Proof.
  rewrite length_app. replace (length m + length r - length r) with (length m) by lia.
  rewrite firstn_app, Nat.sub_diag, firstn_all. simpl. apply app_nil_r.
Qed.

(** Every element [findall] returns is a substring of the input that the
    pattern matches. *)
Lemma findall_go_sound (rs : list atom) (f : nat) (s x : pstr) :
  In x (findall_go rs f s) ->
  exists pre post, s = pre ++ x ++ post /\ lang rs x.
Proof.
  revert s. induction f as [|f IH]; intros s H; simpl in *; [contradiction|].
  assert (Hstep : In x (match s with [] => [] | _ :: t => findall_go rs f t end) ->
                  exists pre post, s = pre ++ x ++ post /\ lang rs x).
  { intros Ht. destruct s as [|c t]; [contradiction|].
    destruct (IH t Ht) as [pre [post [Ht' Hl]]].
    exists (c :: pre), post. subst. auto. }
  destruct (mat rs s) as [r|] eqn:Hm.
  - destruct (mat_sound rs s r Hm) as [m [Hs Hl]].
    destruct H as [Hx|H].
    + subst s x. rewrite firstn_match. exists [], r. auto.
    + destruct (Nat.ltb (length r) (length s)).
      * destruct (IH r H) as [pre [post [Hr Hl']]].
        exists (m ++ pre), post. split; [|exact Hl'].
        subst. rewrite <- app_assoc. reflexivity.
      * apply (Hstep H).
  - apply (Hstep H).
Qed.

Lemma findall_sound (rs : list atom) (s x : pstr) :
  In x (findall rs s) -> exists pre post, s = pre ++ x ++ post /\ lang rs x.
Proof. apply findall_go_sound. Qed.

Lemma mat_length (rs : list atom) (s r : pstr) :
  mat rs s = Some r -> length r <= length s.
Proof.
  intros H. destruct (mat_sound rs s r H) as [m [-> _]]. rewrite length_app. lia.
Qed.

Lemma findall_go_fuel (rs : list atom) (f g : nat) (s : pstr) :
  length s < f -> length s < g -> findall_go rs f s = findall_go rs g s.
Proof.
  revert g s. induction f as [|f IH]; intros g s Hf Hg; [lia|].
  destruct g as [|g]; [lia|]. simpl.
  assert (Ht : match s with [] => [] | _ :: t => findall_go rs f t end =
               match s with [] => [] | _ :: t => findall_go rs g t end).
  { destruct s as [|c t]; [reflexivity|]. simpl in *. apply IH; lia. }
  destruct (mat rs s) as [r|] eqn:Hm; [|exact Ht].
  f_equal. destruct (Nat.ltb (length r) (length s)) eqn:E; [|exact Ht].
  apply Nat.ltb_lt in E. apply IH; lia.
Qed.

(** The scanning loop of [findall], without fuel. *)
Lemma findall_eq (rs : list atom) (s : pstr) :
  findall rs s =
  match mat rs s with
  | Some r =>
      firstn (length s - length r) s ::
      (if Nat.ltb (length r) (length s) then findall rs r
       else match s with [] => [] | _ :: t => findall rs t end)
  | None => match s with [] => [] | _ :: t => findall rs t end
  end.
Proof.
  unfold findall at 1. simpl.
  assert (Ht : match s with [] => [] | _ :: t => findall_go rs (length s) t end =
               match s with [] => [] | _ :: t => findall rs t end).
  { destruct s as [|c t]; [reflexivity|]. unfold findall. apply findall_go_fuel; simpl; lia. }
  destruct (mat rs s) as [r|] eqn:Hm; [|exact Ht].
  f_equal. destruct (Nat.ltb (length r) (length s)) eqn:E; [|exact Ht].
  apply Nat.ltb_lt in E. unfold findall. apply findall_go_fuel; lia.
Qed.

(** A text that does not end inside a possible match: its last character is
    outside [U]. *)
Definition ends_outside (U : N -> bool) (pre : pstr) : Prop :=
  forall p c, pre = p ++ [c] -> U c = false.

Lemma ends_outside_suffix (U : N -> bool) (a pre : pstr) :
  ends_outside U (a ++ pre) -> ends_outside U pre.
Proof. intros H p c ->. apply (H (a ++ p) c). rewrite app_assoc. reflexivity. Qed.

(** When every match is a non-empty run of [U] characters, a prefix ending
    outside [U] does not hide the matches of what follows it. *)
Lemma findall_skip_prefix (rs : list atom) (U : N -> bool) :
  (forall s r, mat rs s = Some r ->
     exists m, s = m ++ r /\ m <> [] /\ Forall (fun c => U c = true) m) ->
  forall pre X x, ends_outside U pre -> In x (findall rs X) -> In x (findall rs (pre ++ X)).
Proof.
  intros HU pre. remember (length pre) as n eqn:Hn.
  revert pre Hn. induction n as [n IH] using lt_wf_ind. intros pre Hn X x Hpre Hx.
  destruct pre as [|c0 pre0]; [exact Hx|].
  rewrite findall_eq.
  destruct (mat rs ((c0 :: pre0) ++ X)) as [r|] eqn:Hm.
  - destruct (HU _ _ Hm) as [m [Hs [Hne HmU]]].
    assert (Hlt : length r < length ((c0 :: pre0) ++ X)).
    { rewrite Hs, length_app. destruct m; [congruence|simpl; lia]. }
    apply Nat.ltb_lt in Hlt. rewrite Hlt. right.
    symmetry in Hs. apply app_eq_app in Hs as [l [[Hm1 HX]|[Hsplit Hr]]].
    + exfalso. destruct (exists_last (l := c0 :: pre0)) as [p [c Hpc]]; [discriminate|].
      assert (Hc : U c = true).
      { rewrite List.Forall_forall in HmU. apply HmU. rewrite Hm1, Hpc.
        apply in_or_app. left. apply in_or_app. right. left. reflexivity. }
      rewrite (Hpre p c Hpc) in Hc. discriminate.
    + subst r. apply (IH (length l)).
      * subst n. rewrite Hsplit, length_app. destruct m; [congruence|simpl; lia].
      * reflexivity.
      * rewrite Hsplit in Hpre. eapply ends_outside_suffix. exact Hpre.
      * exact Hx.
  - destruct ((c0 :: pre0) ++ X) as [|c t] eqn:Hs; [discriminate|].
    simpl in Hs. inversion Hs; subst c t.
    apply (IH (length pre0)).
    + subst n. simpl. lia.
    + reflexivity.
    + apply (ends_outside_suffix U [c0]). exact Hpre.
    + exact Hx.
Qed.

(** ** Matching an embedded email *)

Lemma run_app (p : N -> bool) (x y : pstr) :
  Forall (fun c => p c = true) x -> run p (x ++ y) = length x + run p y.
Proof. induction 1 as [|c x Hc _ IH]; simpl; [reflexivity|]. rewrite Hc, IH. reflexivity. Qed.

Definition head_not (p : N -> bool) (s : pstr) : Prop :=
  match s with [] => True | c :: _ => p c = false end.

Lemma run_stop (p : N -> bool) (s : pstr) : head_not p s -> run p s = 0.
Proof. destruct s as [|c s]; simpl; [reflexivity|]. intros ->. reflexivity. Qed.

Lemma try_counts_at (k : nat) (s : pstr) (cont : pstr -> option pstr) (c : nat) (r : pstr) :
  k <= c -> cont (skipn c s) = Some r -> try_counts k s cont c = Some r.
Proof.
  intros Hk Hc. destruct c as [|c]; simpl.
  - destruct (Nat.ltb 0 k) eqn:E; [apply Nat.ltb_lt in E; lia|]. rewrite Hc. reflexivity.
  - destruct (Nat.ltb (S c) k) eqn:E; [apply Nat.ltb_lt in E; lia|]. rewrite Hc. reflexivity.
Qed.

Lemma try_counts_down (k : nat) (s : pstr) (cont : pstr -> option pstr) (c0 n : nat) :
  k <= c0 <= n ->
  (forall c, c0 < c <= n -> cont (skipn c s) = None) ->
  try_counts k s cont n = try_counts k s cont c0.
Proof.
  induction n as [|n IH]; intros Hc Hnone.
  - assert (c0 = 0) by lia. subst. reflexivity.
  - destruct (Nat.eq_dec c0 (S n)) as [->|Hne]; [reflexivity|].
    simpl. destruct (Nat.ltb (S n) k) eqn:E; [apply Nat.ltb_lt in E; lia|].
    rewrite (Hnone (S n)) by lia. apply IH; [lia|]. intros c Hc'. apply Hnone. lia.
Qed.

Lemma alpha_domain (c : N) : is_alpha c = true -> email_domain c = true.
Proof. unfold email_domain, is_alnum. intros ->. reflexivity. Qed.

Lemma domain_char (c : N) : email_domain c = true -> email_char c = true.
Proof.
  unfold email_char, email_local, email_domain. intros H.
  apply orb_prop in H as [->|H]; [reflexivity|].
  apply mem_In in H. simpl in H.
  destruct H as [<-|[<-|[]]]; reflexivity.
Qed.

Lemma alpha_not_dot (c : N) : is_alpha c = true -> c <> 46%N.
Proof. intros H ->. discriminate. Qed.

(** The greedy domain run is cut back to the last dot followed by letters. *)
Lemma mat_domain_tld (d t post : pstr) :
  d <> [] -> Forall (fun c => email_domain c = true) d ->
  2 <= length t -> Forall (fun c => is_alpha c = true) t ->
  head_not email_char post ->
  mat [AClass email_domain 1; ALit (s2p "."); AClass is_alpha 2] (d ++ 46%N :: t ++ post)
  = Some post.
Proof.
  intros Hd Hdd Ht Hta Hpost.
  assert (Hpost_dom : head_not email_domain post).
  { destruct post as [|c post]; simpl in *; [exact I|].
    destruct (email_domain c) eqn:E; [|reflexivity].
    apply domain_char in E. congruence. }
  assert (Hpost_alpha : head_not is_alpha post).
  { destruct post as [|c post]; simpl in *; [exact I|].
    destruct (is_alpha c) eqn:E; [|reflexivity].
    apply alpha_domain in E. congruence. }
  assert (Hlen : length d > 0) by (destruct d; [congruence|simpl; lia]).
  cbn [mat].
  rewrite run_app by exact Hdd.
  change (46%N :: t ++ post) with ([46%N] ++ t ++ post).
  rewrite (run_app _ [46%N]) by (repeat constructor).
  rewrite (run_app _ t post) by (eapply Forall_impl; [exact Hta|]; apply alpha_domain).
  rewrite (run_stop _ _ Hpost_dom).
  rewrite (try_counts_down 1 _ _ (length d)); [| simpl; lia |].
  - apply try_counts_at; [lia|].
    rewrite drop_app_length. simpl.
    rewrite run_app by exact Hta. rewrite (run_stop _ _ Hpost_alpha).
    apply try_counts_at; [lia|].
    rewrite Nat.add_0_r, drop_app_length. reflexivity.
  - intros c Hc. simpl in Hc.
    rewrite drop_app, (drop_ge d c) by lia. cbn [app].
    replace (c - length d) with (S (c - length d - 1)) by lia. cbn [skipn app].
    rewrite drop_app. change (s2p ".") with [46%N].
    destruct (drop (c - length d - 1) t) as [|x rest] eqn:Hsk.
    + replace (c - length d - 1 - length t) with 0 by lia. cbn [skipn app].
      destruct post as [|y post]; [reflexivity|]. simpl in Hpost.
      assert (Hy : N.eqb 46 y = false).
      { destruct (N.eqb 46 y) eqn:E; [|reflexivity].
        apply N.eqb_eq in E. subst. discriminate. }
      cbn [mat strip_prefix skipn]. rewrite Hy. reflexivity.
    + cbn [app mat strip_prefix]. destruct (N.eqb 46 x) eqn:E; [|reflexivity].
      apply N.eqb_eq in E. subst x. exfalso.
      assert (Hin : In 46%N t).
      { rewrite <- (firstn_skipn (c - length d - 1) t). apply in_or_app. right.
        rewrite Hsk. left. reflexivity. }
      rewrite List.Forall_forall in Hta. apply Hta in Hin. discriminate.
Qed.

Lemma mat_email_embedded (e post : pstr) :
  is_email e -> head_not email_char post -> mat email_pattern (e ++ post) = Some post.
Proof.
  intros [l [d [t [He [Hl [Hll [Hd [Hdd [Ht Hta]]]]]]]]] Hpost. subst e.
  rewrite <- !app_assoc. cbn [app].
  match goal with
  | |- mat email_pattern ?X = _ =>
      change (mat email_pattern X) with
        (try_counts 1 X (mat [ALit (s2p "@"); AClass email_domain 1;
                              ALit (s2p "."); AClass is_alpha 2]) (run email_local X))
  end.
  rewrite run_app by exact Hll.
  replace (run email_local (64%N :: d ++ 46%N :: t ++ post)) with 0 by reflexivity.
  apply try_counts_at; [destruct l; [congruence|simpl; lia]|].
  rewrite Nat.add_0_r, drop_app_length.
  match goal with
  | |- mat (ALit _ :: ?rs) (64%N :: ?y) = _ => change (mat rs y = Some post)
  end.
  apply mat_domain_tld; assumption.
Qed.

Lemma lang_email (m : pstr) : lang email_pattern m -> is_email m.
Proof.
  unfold email_pattern. cbn [lang].
  intros [l [m1 [-> [Hl1 [Hl [m2 [-> [d [m3 [-> [Hd1 [Hd [m4 [-> [t [m5 [-> [Ht2 [Ht ->]]]]]]]]]]]]]]]]]]].
  exists l, d, t.
  split; [rewrite app_nil_r; reflexivity|].
  split; [destruct l; [exfalso; simpl in Hl1; lia|discriminate]|].
  split; [exact Hl|].
  split; [destruct d; [exfalso; simpl in Hd1; lia|discriminate]|].
  split; [exact Hd|]. split; [exact Ht2|exact Ht].
Qed.

Lemma is_email_chars (e : pstr) :
  is_email e -> e <> [] /\ Forall (fun c => email_char c = true) e.
Proof.
  intros [l [d [t [He [Hl [Hll [Hd [Hdd [Ht Hta]]]]]]]]]. subst e. split.
  - destruct l; [congruence|discriminate].
  - assert (Hlc : forall c, email_local c = true -> email_char c = true)
      by (intros c Hc; unfold email_char; rewrite Hc; reflexivity).
    repeat apply Forall_app_2.
    + eapply Forall_impl; [exact Hll|]. exact Hlc.
    + repeat constructor.
    + eapply Forall_impl; [exact Hdd|]. exact domain_char.
    + repeat constructor.
    + eapply Forall_impl; [exact Hta|]. intros c Hc. apply domain_char, alpha_domain, Hc.
Qed.

Lemma mat_email_chars (s r : pstr) :
  mat email_pattern s = Some r ->
  exists m, s = m ++ r /\ m <> [] /\ Forall (fun c => email_char c = true) m.
Proof.
  intros H. destruct (mat_sound _ _ _ H) as [m [Hs Hl]].
  exists m. split; [exact Hs|]. apply is_email_chars, lang_email, Hl.
Qed.

(** An email delimited on both sides by characters outside the email
    character set is among the matches. *)
Lemma findall_email_embedded (pre e post : pstr) :
  is_email e -> ends_outside email_char pre -> head_not email_char post ->
  In e (findall email_pattern (pre ++ e ++ post)).
Proof.
  intros He Hpre Hpost.
  apply (findall_skip_prefix email_pattern email_char mat_email_chars pre (e ++ post) e Hpre).
  rewrite findall_eq, (mat_email_embedded e post He Hpost). left.
  apply firstn_match.
Qed.

(** * Set listings *)

Lemma dedup_In (xs : list pstr) (y : pstr) : In y (dedup xs) <-> In y xs.
Proof.
  induction xs as [|x xs IH]; simpl; [tauto|].
  pose proof (List.filter_In (fun z : pstr => negb (bool_decide (z = x))) y (dedup xs)) as Hf.
  split.
  - intros [->|H]; [left; reflexivity|]. right. apply IH, Hf, H.
  - intros [->|H]; [left; reflexivity|].
    destruct (decide (y = x)) as [->|Hne]; [left; reflexivity|right].
    apply Hf. split; [apply IH, H|]. rewrite bool_decide_false by exact Hne. reflexivity.
Qed.

Lemma dedup_NoDup (xs : list pstr) : List.NoDup (dedup xs).
Proof.
  induction xs as [|x xs IH]; simpl; [constructor|].
  constructor.
  - intros H. apply List.filter_In in H as [_ H].
    rewrite bool_decide_true in H by reflexivity. discriminate.
  - apply List.NoDup_filter. exact IH.
Qed.

Lemma dedup_valid : valid_setlist dedup.
Proof. intros xs. split; [apply dedup_NoDup|apply dedup_In]. Qed.

Lemma rev_dedup_valid : valid_setlist rev_dedup.
Proof.
  intros xs. unfold rev_dedup. split.
  - apply List.NoDup_rev, dedup_NoDup.
  - intros y. rewrite <- in_rev. apply dedup_In.
Qed.

Lemma extract_emails_In (setlist : list pstr -> list pstr) (text e : pstr) :
  valid_setlist setlist ->
  In e (extract_emails setlist text) <-> In e (findall email_pattern text).
Proof.
  intros Hv. unfold extract_emails. destruct text as [|c t].
  - simpl. tauto.
  - apply Hv.
Qed.

Lemma list_nil_iff {A} (l : list A) : l = [] <-> forall x, ~ In x l.
Proof.
  split; [intros ->; simpl; tauto|].
  destruct l as [|x l]; [reflexivity|]. intros H. exfalso. apply (H x). left. reflexivity.
Qed.

(** * SNS patterns *)

Lemma first_match_split (pats pre post : list (list atom)) (p : list atom)
    (text m : pstr) (ms : list pstr) :
  pats = pre ++ p :: post -> Forall (fun q => findall q text = []) pre ->
  findall p text = m :: ms -> first_match pats text = Some m.
Proof.
  intros -> Hpre Hm. induction Hpre as [|q pre Hq _ IH]; simpl.
  - rewrite Hm. reflexivity.
  - rewrite Hq. exact IH.
Qed.

Lemma startswith_app (l m : pstr) : startswith (l ++ m) l = true.
Proof. induction l as [|c l IH]; simpl; [reflexivity|]. rewrite N.eqb_refl. exact IH. Qed.

Lemma lang_lit_prefix (l : pstr) (rs : list atom) (m : pstr) :
  lang (ALit l :: rs) m -> exists m', m = l ++ m'.
Proof. intros [m' [H _]]. exists m'. exact H. Qed.

Lemma findall_lit_prefix (l : pstr) (rs : list atom) (text m : pstr) :
  In m (findall (ALit l :: rs) text) -> exists m', m = l ++ m'.
Proof.
  intros H. destruct (findall_sound _ _ _ H) as [_ [_ [_ Hl]]].
  apply (lang_lit_prefix l rs). exact Hl.
Qed.

(** A match of a protocol-qualified pattern already starts with [http]. *)
Lemma normalize_qualified (rest : list atom) (text m : pstr) :
  In m (findall (scheme_www ++ rest) text) -> normalize_url m = m.
Proof.
  intros H. apply findall_lit_prefix in H as [m' ->].
  unfold normalize_url. rewrite startswith_app. reflexivity.
Qed.

Lemma normalize_head (m : pstr) (c : N) (m' : pstr) :
  m = c :: m' -> c <> 104%N -> normalize_url m = s2p "https://" ++ m.
Proof.
  intros -> Hc. unfold normalize_url. cbn [s2p startswith].
  replace (N.eqb (N_of_ascii "h") c) with false; [reflexivity|].
  symmetry. apply N.eqb_neq. intros Heq. apply Hc. rewrite <- Heq. reflexivity.
Qed.

(** A match of a bare-domain pattern never starts with [h], so it gets the
    [https://] prefix. *)
Lemma normalize_bare (p : list atom) (text m : pstr) :
  In p bare_patterns -> In m (findall p text) -> normalize_url m = s2p "https://" ++ m.
Proof.
  intros Hp Hm. apply findall_sound in Hm as [_ [_ [_ Hl]]].
  simpl in Hp.
  destruct Hp as [<-|[<-|[<-|[<-|[<-|[<-|[]]]]]]];
    try (destruct Hl as [m' [-> _]]; eapply normalize_head; [reflexivity|discriminate]).
  destruct Hl as [l [m' [Hin [-> _]]]]. simpl in Hin.
  destruct Hin as [<-|[<-|[]]]; eapply normalize_head; (reflexivity || discriminate).
Qed.

Local Abbreviation sns_step text := (fun acc tp =>
  match first_match (snd tp) text with
  | Some m => dset (sns_key (fst tp)) (normalize_url m) acc
  | None => acc
  end).

Lemma sns_fold_other (text : pstr) (k : string) (l : list (string * list (list atom))) (d : odict) :
  (forall tp, In tp l -> sns_key (fst tp) <> k) ->
  dlookup k (fold_left (sns_step text) l d) = dlookup k d.
Proof.
  revert d. induction l as [|tp l IH]; intros d H; simpl; [reflexivity|].
  rewrite IH by (intros tp' Htp'; apply H; right; exact Htp').
  destruct (first_match (snd tp) text); [|reflexivity].
  apply dlookup_dset_ne. intros Heq. apply (H tp); [left; reflexivity|]. symmetry. exact Heq.
Qed.

Lemma sns_fold_lookup (text : pstr) (l : list (string * list (list atom))) (d : odict)
    (t : string) (pats : list (list atom)) :
  List.NoDup (map (fun tp => sns_key (fst tp)) l) -> In (t, pats) l ->
  dlookup (sns_key t) (fold_left (sns_step text) l d) =
  match first_match pats text with
  | Some m => Some (normalize_url m)
  | None => dlookup (sns_key t) d
  end.
Proof.
  revert d. induction l as [|[t0 p0] l IH]; intros d Hnd Hin; [contradiction|].
  simpl in Hnd. inversion Hnd as [|? ? Hnot Hnd']; subst.
  cbn [fold_left]. destruct Hin as [E|Hin].
  - injection E as -> ->.
    rewrite sns_fold_other.
    + cbn [fst snd]. destruct (first_match pats text); [apply dlookup_dset_eq|reflexivity].
    + intros tp Htp Heq. apply Hnot. rewrite <- Heq.
      apply (in_map (fun tp => sns_key (fst tp)) l tp). exact Htp.
  - rewrite (IH _ Hnd' Hin). destruct (first_match pats text); [reflexivity|].
    cbn [fst snd]. destruct (first_match p0 text); [|reflexivity].
    apply dlookup_dset_ne. intros Heq. apply Hnot. rewrite <- Heq.
    apply (in_map (fun tp => sns_key (fst tp)) l (t, pats)). exact Hin.
Qed.

Lemma sns_keys_nodup : List.NoDup (map (fun tp => sns_key (fst tp)) sns_patterns).
Proof.
  cbn.
  repeat (apply List.NoDup_cons; [cbn; intuition discriminate|]).
  apply List.NoDup_nil.
Qed.

Lemma extract_sns_urls_lookup (text : pstr) (t : string) (pats : list (list atom)) :
  In (t, pats) sns_patterns ->
  dlookup (sns_key t) (extract_sns_urls text) =
  Some (match first_match pats text with Some m => normalize_url m | None => [] end).
Proof.
  intros Hin. unfold extract_sns_urls.
  rewrite (sns_fold_lookup text sns_patterns sns_init t pats sns_keys_nodup Hin).
  destruct (first_match pats text); [reflexivity|].
  cbv [sns_patterns In] in Hin.
  destruct Hin as [E|[E|[E|[E|[E|[]]]]]]; injection E as <- _; reflexivity.
Qed.

Lemma extract_sns_urls_platforms (text : pstr) :
  map fst (extract_sns_urls text) = platform_keys.
Proof.
  unfold extract_sns_urls, sns_patterns. cbn [fold_left fst snd].
  repeat match goal with
         | |- context [first_match ?p text] => destruct (first_match p text)
         end; reflexivity.
Qed.

(** * The pipeline over a candidate list *)

Lemma process_search_results_map (setlist : list pstr -> list pstr)
    (fetch : pstr -> option page) (results : list dict) (n : nat) :
  Forall has_title results ->
  process_search_results setlist fetch results n =
  Some (map (process_one setlist fetch) (firstn n results)).
Proof. intros H. unfold process_search_results. apply process_go_map, Forall_take, H. Qed.

Lemma nth_error_map_firstn {A B} (f : A -> B) (l : list A) (n i : nat) :
  i < n -> nth_error (map f (firstn n l)) i = option_map f (nth_error l i).
Proof.
  intros H. rewrite nth_error_map, nth_error_firstn.
  replace (Nat.ltb i n) with true by (symmetry; apply Nat.ltb_lt; exact H).
  reflexivity.
Qed.

(** * The claims *)

(** ** C9 *)

(** C9: the extractor never changes a field outside the contact-signal
    fields ([email] and the five [*_url] fields); in particular [title],
    [website_url], [snippet] and [company_name] are left as they are. *)
Theorem extract_contact_info_preserves_fields (setlist : list pstr -> list pstr)
    (fetch : pstr -> option page) (r : dict) (q : string) :
  ~ In q signal_keys ->
  extract_contact_info setlist fetch r !! q = r !! q.
Proof. apply extract_contact_info_frame. Qed.

Lemma extract_contact_info_preserves_fields_witness :
  extract_contact_info dedup (fun _ => Some sample_page)
    (format_result (s2p "Acme | Home") (s2p "https://acme.example") (s2p "snip"))
    !! "company_name" = Some (s2p "Acme").
Proof.
  rewrite (extract_contact_info_preserves_fields dedup (fun _ => Some sample_page)
             (format_result (s2p "Acme | Home") (s2p "https://acme.example") (s2p "snip"))
             "company_name").
  - vm_compute. reflexivity.
  - cbn. intuition discriminate.
Defined.

(** ** C8 *)

(** C8: the display-name derivation is idempotent. *)
Theorem extract_company_name_idempotent (title : pstr) :
  extract_company_name (extract_company_name title) = extract_company_name title.
Proof.
  unfold extract_company_name at 1. apply cstep_id.
  intros s Hs. apply cstep_no_sep. exact Hs.
Qed.

(** ** C5 *)

(** C5, as stated: a title without a separator is not trimmed. *)
Lemma extract_company_name_untrimmed :
  extract_company_name (s2p "Acme Corp ") = s2p "Acme Corp " /\
  leftmost_segment_trimmed (s2p "Acme Corp ") = s2p "Acme Corp".
Proof. split; vm_compute; reflexivity. Qed.

(** C5, amended: when the title contains a separator, the display name is
    the left-most segment before the first separator, trimmed; otherwise it
    is the title itself, untrimmed.  "Acme Corp | Home Page" gives
    "Acme Corp". *)
Theorem extract_company_name_spec (title : pstr) :
  extract_company_name title =
  (if existsb is_separator title then leftmost_segment_trimmed title else title) /\
  extract_company_name (s2p "Acme Corp | Home Page") = s2p "Acme Corp".
Proof.
  split.
  - unfold extract_company_name, leftmost_segment_trimmed, is_separator.
    apply cstep_characterisation, separators_not_space.
  - vm_compute. reflexivity.
Qed.

(** ** C1 *)

(** C1, as stated: with a limit of 1, the second of two candidates is not in
    the output, so the output is shorter than the input. *)
Lemma process_search_results_drops_beyond_limit :
  process_search_results dedup (fun _ => None)
    [format_result (s2p "A") (s2p "https://a.example") [];
     format_result (s2p "B") (s2p "https://b.example") []] 1 =
  Some [format_result (s2p "A") (s2p "https://a.example") []].
Proof. vm_compute. reflexivity. Qed.

(** C1, amended: only the first [max_pages_to_scan] candidates are
    processed and returned; the others are dropped, so the output has
    [min max_pages_to_scan (length results)] entries. *)
Theorem process_search_results_scan_budget (setlist : list pstr -> list pstr)
    (fetch : pstr -> option page) (results : list dict) (max_pages_to_scan : nat) :
  Forall has_title results ->
  exists out,
    process_search_results setlist fetch results max_pages_to_scan = Some out /\
    out = map (process_one setlist fetch) (firstn max_pages_to_scan results) /\
    length out = Nat.min max_pages_to_scan (length results).
Proof.
  intros H. eexists. split; [apply process_search_results_map, H|].
  split; [reflexivity|]. rewrite length_map. apply length_take.
Qed.

Lemma process_search_results_scan_budget_witness :
  exists out,
    process_search_results dedup (fun _ => Some sample_page)
      [format_result (s2p "A") (s2p "https://a.example") [];
       format_result (s2p "B") (s2p "https://b.example") [];
       format_result (s2p "C") [] []] 2 = Some out /\
    out = map (process_one dedup (fun _ => Some sample_page))
            (firstn 2 [format_result (s2p "A") (s2p "https://a.example") [];
                       format_result (s2p "B") (s2p "https://b.example") [];
                       format_result (s2p "C") [] []]) /\
    length out = 2.
Proof.
  apply (process_search_results_scan_budget dedup (fun _ => Some sample_page)).
  repeat constructor; eexists; reflexivity.
Defined.

(** ** C4 *)

(** C4: a scanned candidate with a non-empty url whose fetch fails is
    returned unchanged (with its empty signal fields), the run still returns
    a list, and every later scanned candidate is processed. *)
Theorem fetch_failure_passthrough (setlist : list pstr -> list pstr)
    (fetch : pstr -> option page) (results : list dict) (max_pages_to_scan i : nat)
    (c : dict) :
  Forall has_title results ->
  nth_error results i = Some c -> i < max_pages_to_scan ->
  dget "website_url" c <> [] -> fetch (dget "website_url" c) = None ->
  fresh_candidate c ->
  exists out o,
    process_search_results setlist fetch results max_pages_to_scan = Some out /\
    nth_error out i = Some o /\ o = c /\ fresh_candidate o /\
    (forall j c', i < j -> j < max_pages_to_scan -> nth_error results j = Some c' ->
       nth_error out j = Some (process_one setlist fetch c')).
Proof.
  intros Ht Hi Hlt _ Hf Hfresh.
  exists (map (process_one setlist fetch) (firstn max_pages_to_scan results)), c.
  split; [apply process_search_results_map, Ht|].
  split.
  { rewrite nth_error_map_firstn by exact Hlt. rewrite Hi. cbn [option_map].
    rewrite process_one_fetch_fails by exact Hf. reflexivity. }
  split; [reflexivity|]. split; [exact Hfresh|].
  intros j c' _ Hj Hc'. rewrite nth_error_map_firstn by exact Hj. rewrite Hc'. reflexivity.
Qed.

Lemma fetch_failure_passthrough_witness :
  exists out o,
    process_search_results dedup
      (fun u => if bool_decide (u = s2p "https://down.example") then None else Some sample_page)
      [format_result (s2p "A") (s2p "https://down.example") [];
       format_result (s2p "B") (s2p "https://b.example") []] 2 = Some out /\
    nth_error out 0 = Some o /\
    o = format_result (s2p "A") (s2p "https://down.example") [] /\ fresh_candidate o /\
    (forall j c', 0 < j -> j < 2 ->
       nth_error [format_result (s2p "A") (s2p "https://down.example") [];
                  format_result (s2p "B") (s2p "https://b.example") []] j = Some c' ->
       nth_error out j = Some (process_one dedup
         (fun u => if bool_decide (u = s2p "https://down.example") then None else Some sample_page) c')).
Proof.
  apply fetch_failure_passthrough.
  - repeat constructor; eexists; reflexivity.
  - reflexivity.
  - lia.
  - vm_compute. discriminate.
  - vm_compute. reflexivity.
  - apply format_result_fresh.
Defined.

(** ** C10 *)

Lemma sns_init_platform (k : string) :
  In k platform_keys -> dlookup k sns_init = Some [].
Proof.
  cbv [platform_keys In]. intros [<-|[<-|[<-|[<-|[<-|[]]]]]]; reflexivity.
Qed.

(** C10, as stated: the second href contains [x.com], but the [elif] chain
    gives it to Instagram, so the X slot keeps the first href. *)
Lemma anchor_scan_x_not_last_x_href :
  str_in (s2p "x.com") (s2p "https://instagram.com/b?ref=x.com") = true /\
  dlookup "x" (extract_sns_urls_from_links
                 [s2p "https://x.com/a"; s2p "https://instagram.com/b?ref=x.com"]) =
  Some (s2p "https://x.com/a").
Proof. split; vm_compute; reflexivity. Qed.

(** C10, amended: for each platform, the anchor scan keeps, verbatim, the
    href of the last anchor that the [if]/[elif] chain attributes to that
    platform (the first of instagram.com, tiktok.com, youtube.com or
    youtu.be, twitter.com or x.com, facebook.com occurring anywhere in the
    href); with no such anchor the slot stays empty. *)
Theorem anchor_scan_last_attributed_verbatim (k : string) (hrefs : list pstr) :
  In k platform_keys ->
  (forall pre h post,
     hrefs = pre ++ h :: post -> classify_href h = Some k ->
     Forall (fun h' => classify_href h' <> Some k) post ->
     dlookup k (extract_sns_urls_from_links hrefs) = Some h) /\
  (Forall (fun h => classify_href h <> Some k) hrefs ->
   dlookup k (extract_sns_urls_from_links hrefs) = Some []).
Proof.
  intros Hk. unfold extract_sns_urls_from_links. split.
  - intros pre h post -> Hh Hpost.
    rewrite fold_left_app. cbn [fold_left].
    rewrite links_fold_other by exact Hpost.
    rewrite Hh. apply dlookup_dset_eq.
  - intros Hall. rewrite links_fold_other by exact Hall.
    apply sns_init_platform, Hk.
Qed.

Lemma anchor_scan_last_attributed_verbatim_witness :
  (forall pre h post,
     [s2p "https://x.com/a"; s2p "https://twitter.com/b"] = pre ++ h :: post ->
     classify_href h = Some "x" ->
     Forall (fun h' => classify_href h' <> Some "x") post ->
     dlookup "x" (extract_sns_urls_from_links
                    [s2p "https://x.com/a"; s2p "https://twitter.com/b"]) = Some h) /\
  (Forall (fun h => classify_href h <> Some "x")
          [s2p "https://x.com/a"; s2p "https://twitter.com/b"] ->
   dlookup "x" (extract_sns_urls_from_links
                  [s2p "https://x.com/a"; s2p "https://twitter.com/b"]) = Some []).
Proof.
  apply anchor_scan_last_attributed_verbatim.
  cbn. right. right. right. left. reflexivity.
Defined.

(** ** C2 *)

(** C2: a profile URL found only by the patterns over the raw markup is lost.
    The anchor scan returns all five platforms, with [''] for those without
    an anchor, and [dict.update] writes these [''] over the pattern results;
    the record keeps its empty [instagram_url]. *)
Theorem anchor_scan_erases_pattern_urls :
  dlookup "instagram" (extract_sns_urls (html_source handle_page)) =
    Some (s2p "https://instagram.com/acme") /\
  dlookup "instagram" (extract_sns_urls_from_links (soup_hrefs handle_page)) = Some [] /\
  dget "instagram_url"
    (extract_contact_info dedup (fun _ => Some handle_page)
       (format_result (s2p "Acme") (s2p "https://acme.example") [])) = [].
Proof. split; [|split]; vm_compute; reflexivity. Qed.

(** ** C3 *)

Lemma extract_emails_nil (setlist : list pstr -> list pstr) (text : pstr) :
  valid_setlist setlist ->
  extract_emails setlist text = [] <-> findall email_pattern text = [].
Proof.
  intros Hv. rewrite !list_nil_iff.
  split; intros H x Hx; apply (H x); apply (extract_emails_In setlist text x Hv); exact Hx.
Qed.

(** C3, as stated: listing the set in another order picks the second email
    of the visible text, not its first occurrence. *)
Lemma email_choice_not_first_occurrence :
  valid_setlist rev_dedup /\
  dget "email" (extract_contact_info rev_dedup (fun _ => Some two_email_page)
                  (format_result (s2p "Acme") (s2p "https://acme.example") [])) =
    s2p "d@e.ff" /\
  first_occurrence_email (soup_text two_email_page) (html_source two_email_page) =
    s2p "a@b.cc".
Proof.
  split; [apply rev_dedup_valid|]. split; vm_compute; reflexivity.
Qed.

(** C3, amended: the chosen email is one of the emails of the visible text
    when it has any, else one of the emails of the raw markup when it has
    any, else the field is unchanged; which one of them is chosen depends on
    the set's iteration order. *)
Theorem email_choice_prefers_visible_text (setlist : list pstr -> list pstr)
    (fetch : pstr -> option page) (r : dict) (pg : page) :
  valid_setlist setlist ->
  dget "website_url" r <> [] -> fetch (dget "website_url" r) = Some pg ->
  (findall email_pattern (soup_text pg) <> [] ->
   exists e, extract_contact_info setlist fetch r !! "email" = Some e /\
             In e (findall email_pattern (soup_text pg))) /\
  (findall email_pattern (soup_text pg) = [] ->
   findall email_pattern (html_source pg) <> [] ->
   exists e, extract_contact_info setlist fetch r !! "email" = Some e /\
             In e (findall email_pattern (html_source pg))) /\
  (findall email_pattern (soup_text pg) = [] ->
   findall email_pattern (html_source pg) = [] ->
   extract_contact_info setlist fetch r !! "email" = r !! "email").
Proof.
  intros Hv Hu Hf. rewrite (extract_contact_info_email setlist fetch r pg Hu Hf).
  pose proof (extract_emails_nil setlist (soup_text pg) Hv) as N1.
  pose proof (extract_emails_nil setlist (html_source pg) Hv) as N2.
  pose proof (extract_emails_In setlist (soup_text pg)) as I1.
  pose proof (extract_emails_In setlist (html_source pg)) as I2.
  destruct (extract_emails setlist (soup_text pg)) as [|e1 l1].
  - destruct (extract_emails setlist (html_source pg)) as [|e2 l2]; cbn [app].
    + split; [intros H; exfalso; apply H, N1; reflexivity|].
      split; [intros _ H; exfalso; apply H, N2; reflexivity|].
      intros _ _. reflexivity.
    + split; [intros H; exfalso; apply H, N1; reflexivity|].
      split; [|intros _ H; apply N2 in H; discriminate].
      intros _ _. exists e2. split; [reflexivity|].
      apply (I2 e2 Hv). left. reflexivity.
  - cbn [app]. split.
    + intros _. exists e1. split; [reflexivity|]. apply (I1 e1 Hv). left. reflexivity.
    + split; intros H; apply N1 in H; discriminate.
Qed.

Lemma email_choice_prefers_visible_text_witness :
  (findall email_pattern (soup_text sample_page) <> [] ->
   exists e, extract_contact_info dedup (fun _ => Some sample_page)
               (format_result (s2p "Acme") (s2p "https://acme.example") []) !! "email" = Some e /\
             In e (findall email_pattern (soup_text sample_page))) /\
  (findall email_pattern (soup_text sample_page) = [] ->
   findall email_pattern (html_source sample_page) <> [] ->
   exists e, extract_contact_info dedup (fun _ => Some sample_page)
               (format_result (s2p "Acme") (s2p "https://acme.example") []) !! "email" = Some e /\
             In e (findall email_pattern (html_source sample_page))) /\
  (findall email_pattern (soup_text sample_page) = [] ->
   findall email_pattern (html_source sample_page) = [] ->
   extract_contact_info dedup (fun _ => Some sample_page)
     (format_result (s2p "Acme") (s2p "https://acme.example") []) !! "email" =
   format_result (s2p "Acme") (s2p "https://acme.example") [] !! "email").
Proof.
  apply email_choice_prefers_visible_text.
  - apply dedup_valid.
  - vm_compute. discriminate.
  - reflexivity.
Defined.

(** ** C6 *)

(** C6: every platform's pattern list is its protocol-qualified patterns
    followed by the same patterns without scheme; the URL kept for the
    platform is the first match of the first pattern that matches, later
    patterns are not looked at; a match without scheme gets [https://]
    while a protocol-qualified match is kept as it is; and the result has
    one entry per platform. *)
Theorem extract_sns_urls_first_accepted (text : pstr) (t : string)
    (pats pre post : list (list atom)) (p : list atom) (m : pstr) (ms : list pstr) :
  In (t, pats) sns_patterns ->
  pats = pre ++ p :: post ->
  Forall (fun q => findall q text = []) pre ->
  findall p text = m :: ms ->
  (exists q, pats = map (fun r => scheme_www ++ r) q ++ q /\
             Forall (fun r => In r bare_patterns) q) /\
  dlookup (sns_key t) (extract_sns_urls text) = Some (normalize_url m) /\
  (In p bare_patterns -> normalize_url m = s2p "https://" ++ m) /\
  (forall rest, p = scheme_www ++ rest -> normalize_url m = m) /\
  map fst (extract_sns_urls text) = platform_keys.
Proof.
  intros Hin Hsplit Hpre Hm.
  assert (Hmm : In m (findall p text)) by (rewrite Hm; left; reflexivity).
  split.
  { pose proof Hin as Hin'. cbv [sns_patterns In] in Hin'.
    destruct Hin' as [E|[E|[E|[E|[E|[]]]]]]; injection E as <- <-;
      [exists [ig_path] | exists [tt_path] | exists [yt_path_channel; yt_path_handle]
      | exists [x_path] | exists [fb_path]];
      (split; [reflexivity|]);
      repeat (apply Forall_cons; split;
              [cbn [bare_patterns In]; repeat (first [left; reflexivity | right]) |]);
      apply Forall_nil; exact I. }
  split.
  { rewrite (extract_sns_urls_lookup text t pats Hin).
    rewrite (first_match_split pats pre post p text m ms Hsplit Hpre Hm). reflexivity. }
  split; [intros Hp; exact (normalize_bare p text m Hp Hmm)|].
  split; [intros rest ->; exact (normalize_qualified rest text m Hmm)|].
  apply extract_sns_urls_platforms.
Qed.

Lemma extract_sns_urls_first_accepted_witness :
  dlookup "instagram" (extract_sns_urls (s2p "Follow us: instagram.com/acme")) =
  Some (s2p "https://instagram.com/acme").
Proof.
  refine (proj1 (proj2 (extract_sns_urls_first_accepted
            (s2p "Follow us: instagram.com/acme") "instagram"
            [scheme_www ++ ig_path; ig_path] [scheme_www ++ ig_path] [] ig_path
            (s2p "instagram.com/acme") [] _ _ _ _))).
  - cbn [sns_patterns In]. left. reflexivity.
  - reflexivity.
  - constructor; [vm_compute; reflexivity|constructor].
  - vm_compute. reflexivity.
Defined.

(** ** C7 *)

(** C7, as stated: an email glued to a preceding letter is not recovered;
    the match runs on to the left. *)
Lemma extract_emails_adjacent_char :
  is_email (s2p "a@b.cc") /\
  extract_emails dedup (s2p "xa@b.cc") = [s2p "xa@b.cc"] /\
  ~ In (s2p "a@b.cc") (extract_emails dedup (s2p "xa@b.cc")).
Proof.
  split.
  { exists [97%N], [98%N], [99%N; 99%N].
    refine (conj eq_refl (conj _ (conj _ (conj _ (conj _ (conj _ _))))));
      try discriminate; repeat constructor. }
  split; [vm_compute; reflexivity|].
  change (extract_emails dedup (s2p "xa@b.cc")) with [s2p "xa@b.cc"].
  intros [H|[]]. discriminate H.
Qed.

(** C7, amended: an email of the canonical syntax is recovered when the
    characters around it cannot extend a match (the one before it, if any,
    and the one after it, if any, are not in [[a-zA-Z0-9._%+-@]]); a text
    with no infix of the canonical syntax gives no email; and the empty
    text gives none. *)
Theorem extract_emails_recovery (setlist : list pstr -> list pstr) :
  valid_setlist setlist ->
  (forall pre e post,
     is_email e -> ends_outside email_char pre -> head_not email_char post ->
     In e (extract_emails setlist (pre ++ e ++ post))) /\
  (forall text, (forall a e b, text = a ++ e ++ b -> ~ is_email e) ->
     extract_emails setlist text = []) /\
  extract_emails setlist [] = [].
Proof.
  intros Hv. split; [|split; [|reflexivity]].
  - intros pre e post He Hpre Hpost.
    apply (extract_emails_In setlist _ e Hv).
    apply findall_email_embedded; assumption.
  - intros text Hno. apply list_nil_iff. intros x Hx.
    apply (extract_emails_In setlist text x Hv), findall_sound in Hx.
    destruct Hx as [a [b [Ht Hl]]].
    exact (Hno a x b Ht (lang_email x Hl)).
Qed.

Lemma extract_emails_recovery_witness :
  In (s2p "a@b.cc") (extract_emails dedup (s2p "Mail: " ++ s2p "a@b.cc" ++ s2p " now")).
Proof.
  refine (proj1 (extract_emails_recovery dedup dedup_valid)
            (s2p "Mail: ") (s2p "a@b.cc") (s2p " now") _ _ _).
  - exists [97%N], [98%N], [99%N; 99%N].
    refine (conj eq_refl (conj _ (conj _ (conj _ (conj _ (conj _ _))))));
      try discriminate; repeat constructor.
  - intros p c H. apply (f_equal (@rev N)) in H.
    rewrite rev_app_distr in H. cbn in H. injection H as <- _. reflexivity.
  - reflexivity.
Defined.

(** * Beyond the claims *)

(** ** [search_google] *)

Lemma search_pages_items (cse : nat -> cse_response) (its : nat -> list dict) (j : nat) :
  forall k page acc,
  j <= k -> (forall q, page <= q -> q < page + j -> cse (q * 10 + 1) = CseItems (its q)) ->
  search_pages cse k page acc =
  search_pages cse (k - j) (page + j) (acc ++ concat (map its (seq page j))).
Proof.
  induction j as [|j IH]; intros k page acc Hj H.
  - cbn. rewrite Nat.sub_0_r, Nat.add_0_r, app_nil_r. reflexivity.
  - destruct k as [|k]; [lia|]. cbn [search_pages].
    rewrite (H page) by lia.
    rewrite (IH k (S page) (acc ++ its page)) by (lia || (intros q Hq1 Hq2; apply H; lia)).
    replace (S k - S j) with (k - j) by lia.
    replace (page + S j) with (S page + j) by lia.
    cbn [seq map concat]. rewrite app_assoc. reflexivity.
Qed.

Lemma search_pages_ext (cse cse' : nat -> cse_response) (k : nat) :
  forall page acc,
  (forall q, page <= q -> q < page + k -> cse (q * 10 + 1) = cse' (q * 10 + 1)) ->
  search_pages cse k page acc = search_pages cse' k page acc.
Proof.
  induction k as [|k IH]; intros page acc H; [reflexivity|]. cbn [search_pages].
  rewrite (H page) by lia.
  destruct (cse' (page * 10 + 1)); try reflexivity.
  apply IH. intros q Hq1 Hq2. apply H; lia.
Qed.

Lemma search_google_items (build_ok : bool) (cse : nat -> cse_response) (num_results : nat) :
  exists items, search_google build_ok cse num_results = map format_item items /\
                length items <= num_results.
Proof.
  unfold search_google. destruct build_ok; [|exists []; simpl; split; [reflexivity|lia]].
  destruct (search_pages _ _ _ _) as [all|]; [|exists []; simpl; split; [reflexivity|lia]].
  exists (firstn num_results all). split; [reflexivity|]. rewrite length_take. lia.
Qed.

Lemma format_item_title (item : dict) : has_title (format_item item).
Proof. unfold format_item. exists (dget "title" item). apply format_result_title. Qed.

Lemma format_result_source (title link snippet : pstr) :
  format_result title link snippet !! "source" = Some (s2p "Google Search").
Proof. reflexivity. Qed.

Lemma search_google_titles (build_ok : bool) (cse : nat -> cse_response) (num_results : nat) :
  Forall has_title (search_google build_ok cse num_results).
Proof.
  destruct (search_google_items build_ok cse num_results) as [items [-> _]].
  apply List.Forall_forall. intros r Hr. apply in_map_iff in Hr.
  destruct Hr as [item [<- _]]. apply format_item_title.
Qed.

(** X1: [search_google] returns at most [num_results] records, each built
    from one search item: a fresh candidate (every contact-signal field
    empty) with its title, and the source "Google Search". *)
Theorem search_google_records (build_ok : bool) (cse : nat -> cse_response) (num_results : nat) :
  length (search_google build_ok cse num_results) <= num_results /\
  Forall (fun r => fresh_candidate r /\ has_title r /\
                   r !! "source" = Some (s2p "Google Search"))
         (search_google build_ok cse num_results).
Proof.
  destruct (search_google_items build_ok cse num_results) as [items [-> Hlen]].
  split; [rewrite length_map; exact Hlen|].
  apply List.Forall_forall. intros r Hr. apply in_map_iff in Hr.
  destruct Hr as [item [<- _]].
  split; [|split; [apply format_item_title|]]; unfold format_item;
    [apply format_result_fresh|apply format_result_source].
Qed.

(** X2: [search_google] asks only for the result pages starting at
    1, 11, 21, ..., up to page [(num_results + 9) // 10]: two services that
    answer the same for these start indices give the same result. *)
Theorem search_google_pages_only (build_ok : bool) (cse cse' : nat -> cse_response)
    (num_results : nat) :
  (forall p, p < (num_results + 9) / 10 -> cse (p * 10 + 1) = cse' (p * 10 + 1)) ->
  search_google build_ok cse num_results = search_google build_ok cse' num_results.
Proof.
  intros H. unfold search_google.
  rewrite (search_pages_ext cse cse' _ 0 []); [reflexivity|].
  intros q _ Hq. apply H. lia.
Qed.

Lemma search_google_pages_only_witness :
  search_google true (fun _ => CseNoItems) 20 =
  search_google true (fun start => if Nat.leb start 11 then CseNoItems
                                   else CseItems [format_result [] [] []]) 20.
Proof.
  apply search_google_pages_only. intros p Hp.
  replace p with (if Nat.eqb p 0 then 0 else 1) by (destruct p as [|[|p]]; cbn in *; lia).
  destruct (Nat.eqb p 0); reflexivity.
Defined.

(** X3: a failing API call discards everything: when the pages before page
    [p] returned items and page [p], within the page count, raises, the
    search returns no record at all. *)
Theorem search_google_error_discards (cse : nat -> cse_response) (its : nat -> list dict)
    (num_results p : nat) :
  p < (num_results + 9) / 10 ->
  (forall q, q < p -> cse (q * 10 + 1) = CseItems (its q)) ->
  cse (p * 10 + 1) = CseError ->
  search_google true cse num_results = [].
Proof.
  intros Hp Hits Herr. unfold search_google.
  rewrite (search_pages_items cse its p) by (lia || (intros q _ Hq; apply Hits; lia)).
  destruct ((num_results + 9) / 10 - p) as [|k] eqn:E; [lia|].
  cbn [search_pages]. rewrite Nat.add_0_l, Herr. reflexivity.
Qed.

Lemma search_google_error_discards_witness :
  search_google true (fun start => if Nat.eqb start 1 then CseItems [∅] else CseError) 20 = [].
Proof.
  apply (search_google_error_discards _ (fun _ => [∅]) 20 1).
  - cbn. lia.
  - intros q Hq. replace q with 0 by lia. reflexivity.
  - reflexivity.
Defined.

(** X4: the records are those of the items of the pages read, in page
    order, cut at [num_results]: the pages [0 .. p-1] returned items and the
    scan ended there, because [p] pages were all there was to read or page
    [p] had no ['items']. *)
Theorem search_google_collects (cse : nat -> cse_response) (its : nat -> list dict)
    (num_results p : nat) :
  p <= (num_results + 9) / 10 ->
  (forall q, q < p -> cse (q * 10 + 1) = CseItems (its q)) ->
  (p = (num_results + 9) / 10 \/ cse (p * 10 + 1) = CseNoItems) ->
  search_google true cse num_results =
  map format_item (firstn num_results (concat (map its (seq 0 p)))).
Proof.
  intros Hp Hits Hend. unfold search_google.
  rewrite (search_pages_items cse its p) by (lia || (intros q _ Hq; apply Hits; lia)).
  destruct ((num_results + 9) / 10 - p) as [|k] eqn:E; [reflexivity|].
  destruct Hend as [Hend|Hend]; [lia|].
  cbn [search_pages]. rewrite Nat.add_0_l, Hend. reflexivity.
Qed.

Lemma search_google_collects_witness :
  search_google true (fun start => if Nat.eqb start 1 then CseItems [∅; ∅] else CseNoItems) 20 =
  map format_item (firstn 20 (concat (map (fun _ => [∅; ∅]) (seq 0 1)))).
Proof.
  apply search_google_collects.
  - cbn. lia.
  - intros q Hq. replace q with 0 by lia. reflexivity.
  - right. reflexivity.
Defined.

(** ** The search button *)

(** X5: after a search with results, every returned record is scanned
    (none is dropped by the page budget, which is the same [num_results]),
    and the stored list has one processed record per search result. *)
Theorem search_flow_scans_all (setlist : list pstr -> list pstr) (fetch : pstr -> option page)
    (build_ok : bool) (cse : nat -> cse_response) (num_results : nat) :
  search_google build_ok cse num_results <> [] ->
  search_flow setlist fetch build_ok cse num_results =
  Some (map (process_one setlist fetch) (search_google build_ok cse num_results)).
Proof.
  intros Hne. unfold search_flow.
  destruct (search_google build_ok cse num_results) as [|r rs] eqn:E; [congruence|].
  rewrite <- E. rewrite process_search_results_map by apply search_google_titles.
  rewrite take_ge; [reflexivity|].
  apply search_google_records.
Qed.

Lemma search_flow_scans_all_witness :
  search_flow dedup (fun _ => Some sample_page) true
    (fun start => if Nat.eqb start 1
                  then CseItems [<["title" := s2p "Acme | Home"]> (<["link" := s2p "https://acme.example"]> ∅)]
                  else CseNoItems) 10 =
  Some (map (process_one dedup (fun _ => Some sample_page))
         (search_google true
            (fun start => if Nat.eqb start 1
                          then CseItems [<["title" := s2p "Acme | Home"]> (<["link" := s2p "https://acme.example"]> ∅)]
                          else CseNoItems) 10)).
Proof.
  apply search_flow_scans_all. intros H.
  apply (f_equal (@length dict)) in H. vm_compute in H. discriminate H.
Defined.

Lemma py_join_cons (sep c : pstr) (cs : list pstr) :
  py_join sep (c :: cs) = c ++ concat (map (fun x => sep ++ x) cs).
Proof.
  revert c. induction cs as [|c' cs IH]; intros c.
  - cbn. rewrite app_nil_r. reflexivity.
  - change (py_join sep (c :: c' :: cs)) with (c ++ sep ++ py_join sep (c' :: cs)).
    rewrite IH. cbn [map concat]. rewrite !app_assoc. reflexivity.
Qed.

(** X6: the query is the keywords followed by each selected category, in
    order, each preceded by one space. *)
Theorem build_query_spec (search_keywords : pstr) (search_categories : list pstr) :
  build_query search_keywords search_categories =
  search_keywords ++ concat (map (fun c => s2p " " ++ c) search_categories).
Proof.
  destruct search_categories as [|c cs]; cbn [build_query].
  - rewrite app_nil_r. reflexivity.
  - rewrite py_join_cons. cbn [map concat]. rewrite !app_assoc. reflexivity.
Qed.

(** ** The results tab *)

Lemma filter_filter_b {A} (p q : A -> bool) (l : list A) :
  List.filter p (List.filter q l) = List.filter (fun x => q x && p x) l.
Proof.
  induction l as [|x l IH]; cbn; [reflexivity|].
  destruct (q x); cbn; [destruct (p x); cbn; rewrite IH; reflexivity|exact IH].
Qed.

Lemma filter_ext_b {A} (p q : A -> bool) (l : list A) :
  (forall x, p x = q x) -> List.filter p l = List.filter q l.
Proof. intros H. induction l as [|x l IH]; cbn; [reflexivity|]. rewrite H, IH. reflexivity. Qed.

Lemma cond_keep_if (b : bool) (k : string) (rs : list dict) :
  (if b then keep_if k rs else rs) = List.filter (fun item => negb b || truthy (dget k item)) rs.
Proof.
  destruct b; [reflexivity|]. cbn.
  induction rs as [|r rs IH]; cbn; [reflexivity|]. rewrite <- IH. reflexivity.
Qed.

Lemma apply_filters_filter (fi ft fy fe : bool) (rs : list dict) :
  apply_filters fi ft fy fe rs =
  List.filter (fun item =>
    (negb fi || truthy (dget "instagram_url" item)) &&
    (negb ft || truthy (dget "tiktok_url" item)) &&
    (negb fy || truthy (dget "youtube_url" item)) &&
    (negb fe || truthy (dget "email" item))) rs.
Proof.
  unfold apply_filters. rewrite !cond_keep_if, !filter_filter_b.
  apply filter_ext_b. intros x. rewrite !andb_assoc. reflexivity.
Qed.

(** X7: the four checkboxes of the results tab act as one filter: the shown
    results are the stored ones, in their order, that have a non-empty value
    in every field whose box is ticked. *)
Theorem apply_filters_conjunction (filter_instagram filter_tiktok filter_youtube filter_email : bool)
    (search_results : list dict) :
  apply_filters filter_instagram filter_tiktok filter_youtube filter_email search_results =
  List.filter (fun item =>
    (negb filter_instagram || truthy (dget "instagram_url" item)) &&
    (negb filter_tiktok || truthy (dget "tiktok_url" item)) &&
    (negb filter_youtube || truthy (dget "youtube_url" item)) &&
    (negb filter_email || truthy (dget "email" item))) search_results.
Proof. apply apply_filters_filter. Qed.

(** X8: every row of the results table built from the filtered results
    shows the check mark in the Instagram, TikTok, YouTube and email columns
    whose filter is on. *)
Theorem table_rows_checked (fi ft fy fe : bool) (rs : list dict) :
  Forall (fun row =>
    (fi = true -> nth 2 row [] = [10003%N]) /\ (ft = true -> nth 3 row [] = [10003%N]) /\
    (fy = true -> nth 4 row [] = [10003%N]) /\ (fe = true -> nth 6 row [] = [10003%N]))
    (table_data (apply_filters fi ft fy fe rs)).
Proof.
  rewrite apply_filters_filter. unfold table_data.
  apply List.Forall_forall. intros row Hrow. apply in_map_iff in Hrow.
  destruct Hrow as [item [<- Hin]]. apply List.filter_In in Hin. destruct Hin as [_ Hp].
  cbn [table_row nth]. unfold check_mark.
  repeat rewrite andb_true_iff in Hp. destruct Hp as [[[H1 H2] H3] H4].
  repeat split; intros ->; cbn in *;
    [rewrite H1|rewrite H2|rewrite H3|rewrite H4]; reflexivity.
Qed.

(** ** [export_to_google_spreadsheet] *)

Section Assoc.

Context {V : Type}.

Lemma alookup_aset_eq (k : pstr) (v : V) (l : list (pstr * V)) :
  alookup k (aset k v l) = Some v.
Proof.
  induction l as [|[k' v'] l IH]; cbn.
  - rewrite bool_decide_true by reflexivity. reflexivity.
  - case_bool_decide; cbn.
    + rewrite bool_decide_true by reflexivity. reflexivity.
    + rewrite bool_decide_false by assumption. exact IH.
Qed.

Lemma alookup_aset_ne (k k' : pstr) (v : V) (l : list (pstr * V)) :
  k <> k' -> alookup k (aset k' v l) = alookup k l.
Proof.
  intros Hne. induction l as [|[k'' v'] l IH]; cbn.
  - rewrite bool_decide_false by exact Hne. reflexivity.
  - case_bool_decide as E; cbn.
    + subst k''. rewrite !bool_decide_false by exact Hne. reflexivity.
    + case_bool_decide; [reflexivity|exact IH].
Qed.

Lemma alookup_aremove_ne (k k' : pstr) (l : list (pstr * V)) :
  k <> k' -> alookup k (aremove k' l) = alookup k l.
Proof.
  intros Hne. induction l as [|[k'' v'] l IH]; cbn; [reflexivity|].
  case_bool_decide as E; cbn.
  + subst k''. rewrite bool_decide_false by exact Hne. exact IH.
  + case_bool_decide; [reflexivity|exact IH].
Qed.

Lemma aset_aset (k : pstr) (v w : V) (l : list (pstr * V)) :
  aset k v (aset k w l) = aset k v l.
Proof.
  induction l as [|[k' v'] l IH]; cbn.
  - rewrite bool_decide_true by reflexivity. reflexivity.
  - case_bool_decide; cbn.
    + rewrite bool_decide_true by reflexivity. reflexivity.
    + rewrite bool_decide_false by assumption. rewrite IH. reflexivity.
Qed.

Lemma aremove_aset_fresh (k : pstr) (v : V) (l : list (pstr * V)) :
  alookup k l = None -> aremove k (aset k v l) = l.
Proof.
  induction l as [|[k' v'] l IH]; cbn; intros H.
  - rewrite bool_decide_true by reflexivity. reflexivity.
  - case_bool_decide; [discriminate|]. cbn.
    rewrite bool_decide_false by assumption. rewrite IH by exact H. reflexivity.
Qed.

End Assoc.

Lemma df_of_filtered (data : list dict) :
  df_header (map filter_item data) :: df_values (map filter_item data) =
  match data with
  | [] => [[]]
  | _ => map s2p columns :: map (fun item => map (fun col => dget col item) columns) data
  end.
Proof.
  destruct data as [|item data]; [reflexivity|].
  assert (Hh : df_header (map filter_item (item :: data)) = map s2p columns).
  { cbn [map df_header]. unfold filter_item. rewrite map_map. reflexivity. }
  assert (Hv : df_values (map filter_item (item :: data)) =
               map (fun item => map (fun col => dget col item) columns) (item :: data)).
  { unfold df_values. rewrite map_map. apply map_ext. intros d.
    unfold filter_item. rewrite map_map. reflexivity. }
  rewrite Hh, Hv. reflexivity.
Qed.

Ltac export_cases :=
  unfold export_to_google_spreadsheet, sheet_update, set_files, set_sheets;
  cbn [files worksheets];
  repeat match goal with
         | |- context [json_dump ?e ?j] => destruct (json_dump e j)
         | |- context [authorize_ok ?e] => destruct (authorize_ok e)
         | |- context [open_ok ?e] => destruct (open_ok e)
         | |- context [clear_ok ?e] => destruct (clear_ok e)
         | |- context [add_ok ?e] => destruct (add_ok e)
         | |- context [update_ok ?e] => destruct (update_ok e)
         | |- context [match alookup ?k (worksheets ?s) with Some _ => _ | None => _ end] =>
             destruct (alookup k (worksheets s))
         end; unfold set_files, set_sheets; cbn [negb fst snd files worksheets].

(** X9: a successful spreadsheet export removes the temporary key file it
    wrote, and leaves the named sheet holding exactly the header row of the
    eight output columns followed by one row per record with its values in
    column order ([''] for a missing key); with no records the sheet holds
    one empty row. *)
Theorem export_sheet_contents (env : sheets_env) (data : list dict)
    (service_account_json sheet_name : pstr) (s0 s : sheets_state) :
  alookup (temp_path env) (files s0) = None ->
  export_to_google_spreadsheet env data service_account_json sheet_name s0 = (true, s) ->
  files s = files s0 /\
  alookup sheet_name (worksheets s) =
  Some (match data with
        | [] => [[]]
        | _ => map s2p columns :: map (fun item => map (fun col => dget col item) columns) data
        end).
Proof.
  intros Hfresh. rewrite <- df_of_filtered. export_cases; intros E; try discriminate E;
    injection E as <-; cbn [files worksheets];
    (split; [rewrite aset_aset; apply aremove_aset_fresh, Hfresh | apply alookup_aset_eq]).
Qed.

Lemma export_sheet_contents_witness :
  files (snd (export_to_google_spreadsheet (sample_env true) [sample_record]
                (s2p "{}") (s2p "Sheet1") sample_state)) = [] /\
  alookup (s2p "Sheet1")
    (worksheets (snd (export_to_google_spreadsheet (sample_env true) [sample_record]
                        (s2p "{}") (s2p "Sheet1") sample_state))) =
  Some (map s2p columns :: map (fun item => map (fun col => dget col item) columns) [sample_record]).
Proof.
  apply (export_sheet_contents (sample_env true) [sample_record] (s2p "{}") (s2p "Sheet1")
           sample_state
           (snd (export_to_google_spreadsheet (sample_env true) [sample_record]
                   (s2p "{}") (s2p "Sheet1") sample_state))).
  - reflexivity.
  - apply surjective_pairing.
Defined.


(** X11: when the service-account text is not valid JSON, or authorization
    fails, the export fails and leaves the temporary file on disk: empty in
    the first case, holding the service-account credentials in the second. *)
Theorem export_failure_leaves_key_file (env : sheets_env) (data : list dict)
    (service_account_json sheet_name : pstr) (s0 : sheets_state) :
  (json_dump env service_account_json = None ->
   exists s, export_to_google_spreadsheet env data service_account_json sheet_name s0 = (false, s) /\
             alookup (temp_path env) (files s) = Some []) /\
  (forall text, json_dump env service_account_json = Some text -> authorize_ok env = false ->
   exists s, export_to_google_spreadsheet env data service_account_json sheet_name s0 = (false, s) /\
             alookup (temp_path env) (files s) = Some text).
Proof.
  unfold export_to_google_spreadsheet. split.
  - intros ->. eexists. split; [reflexivity|]. apply alookup_aset_eq.
  - intros text -> ->. eexists. split; [reflexivity|]. cbn. apply alookup_aset_eq.
Qed.

(** X12: when the named sheet exists and the final update fails, the export
    fails after having cleared the sheet: its previous contents are gone. *)
Theorem export_failed_update_clears_sheet (env : sheets_env) (data : list dict)
    (service_account_json sheet_name text : pstr) (old : list (list pstr)) (s0 : sheets_state) :
  alookup sheet_name (worksheets s0) = Some old ->
  json_dump env service_account_json = Some text ->
  authorize_ok env = true -> open_ok env = true -> clear_ok env = true ->
  update_ok env = false ->
  exists s, export_to_google_spreadsheet env data service_account_json sheet_name s0 = (false, s) /\
            alookup sheet_name (worksheets s) = Some [].
Proof.
  intros Hold Hj Ha Ho Hc Hu. unfold export_to_google_spreadsheet, sheet_update.
  rewrite Hj, Ha, Ho. cbn [negb files worksheets set_files set_sheets].
  rewrite Hold, Hc, Hu. unfold set_sheets. cbn [worksheets]. eexists. split; [reflexivity|]. apply alookup_aset_eq.
Qed.

Lemma export_failed_update_clears_sheet_witness :
  exists s, export_to_google_spreadsheet (sample_env false) [sample_record]
              (s2p "{}") (s2p "Sheet1") sample_state = (false, s) /\
            alookup (s2p "Sheet1") (worksheets s) = Some [].
Proof.
  apply (export_failed_update_clears_sheet (sample_env false) [sample_record]
           (s2p "{}") (s2p "Sheet1") (s2p "{}") [[s2p "old"]] sample_state);
    reflexivity.
Defined.

(** X13: whatever its outcome, the spreadsheet export changes no other
    worksheet than the named one and no other file than its temporary one. *)
Theorem export_frame (env : sheets_env) (data : list dict)
    (service_account_json sheet_name : pstr) (s0 : sheets_state) :
  (forall t, t <> sheet_name ->
     alookup t (worksheets (snd (export_to_google_spreadsheet env data service_account_json
                                   sheet_name s0))) = alookup t (worksheets s0)) /\
  (forall path, path <> temp_path env ->
     alookup path (files (snd (export_to_google_spreadsheet env data service_account_json
                                sheet_name s0))) = alookup path (files s0)).
Proof.
  split; intros k Hk; export_cases;
    repeat first [ rewrite alookup_aset_ne by exact Hk
                 | rewrite alookup_aremove_ne by exact Hk ];
    reflexivity.
Qed.

(** ** [export_to_csv] *)

Section CsvExport.
Local Open Scope N_scope.










Ltac decide_N :=
  repeat match goal with
  | |- context [(?a <=? ?b)%N] =>
      first [rewrite (proj2 (N.leb_le a b)) by lia | rewrite (proj2 (N.leb_gt a b)) by lia]
  | |- context [(?a <? ?b)%N] =>
      first [rewrite (proj2 (N.ltb_lt a b)) by lia | rewrite (proj2 (N.ltb_ge a b)) by lia]
  | |- context [(?a =? ?b)%N] =>
      first [rewrite (proj2 (N.eqb_eq a b)) by lia | rewrite (proj2 (N.eqb_neq a b)) by lia]
  end.

Lemma utf8_char_none c : utf8_char c = None <-> scalar_value c = false.
Proof.
  unfold utf8_char, scalar_value.
  destruct (N.ltb_spec c 128); [split; [discriminate|]; decide_N; discriminate|].
  destruct (N.ltb_spec c 2048); [split; [discriminate|]; decide_N; discriminate|].
  destruct (N.leb_spec 55296 c), (N.leb_spec c 57343); simpl;
    [split; [intros _|reflexivity]; decide_N; reflexivity|..];
    destruct (N.ltb_spec c 65536); decide_N; simpl;
    try (split; [discriminate|]; decide_N; discriminate);
    destruct (N.ltb_spec c 1114112); decide_N; simpl; split; congruence.
Qed.


Lemma utf8_encode_none s : utf8_encode s = None <-> forallb scalar_value s = false.
Proof.
  induction s as [|c s IH]; [split; discriminate|].
  cbn [utf8_encode forallb].
  destruct (utf8_char c) eqn:E.
  - assert (scalar_value c = true).
    { destruct (scalar_value c) eqn:F; [reflexivity|].
      apply utf8_char_none in F. congruence. }
    rewrite H. cbn [andb]. rewrite <- IH.
    destruct (utf8_encode s); split; congruence.
  - apply utf8_char_none in E. rewrite E. split; reflexivity.
Qed.





Lemma py_join_cc (sep x y : pstr) ys :
  py_join sep (x :: y :: ys) = x ++ sep ++ py_join sep (y :: ys).
Proof. reflexivity. Qed.




Lemma forallb_csv_escape p f : p 34 = true ->
  forallb p (csv_escape f) = forallb p f.
Proof.
  intros H34. induction f as [|c f IH]; [reflexivity|].
  cbn [csv_escape flat_map forallb]. rewrite forallb_app.
  fold (csv_escape f). rewrite IH.
  destruct (N.eqb_spec c 34) as [Hc|Hc]; cbn [forallb];
    [rewrite Hc, H34; destruct (forallb p f); reflexivity
    |destruct (forallb p f), (p c); reflexivity].
Qed.

Lemma forallb_csv_row p r : p 34 = true -> p 44 = true -> p 10 = true ->
  forallb p (csv_row r) = forallb (forallb p) r.
Proof.
  intros H34 H44 H10.
  assert (Hf : forall f, forallb p (csv_field f) = forallb p f).
  { intros f. unfold csv_field. destruct (existsb csv_special f); [|reflexivity].
    rewrite !forallb_app, forallb_csv_escape by assumption. cbn. rewrite H34.
    destruct (forallb p f); reflexivity. }
  assert (Hj : forall fs, forallb p (py_join [44] (map csv_field fs)) = forallb (forallb p) fs).
  { induction fs as [|f [|g fs] IH]; [reflexivity|cbn; rewrite Hf, andb_true_r; reflexivity|].
    cbn [map]. rewrite py_join_cc, !forallb_app, Hf. cbn [map] in IH. rewrite IH.
    cbn [forallb]. rewrite H44. reflexivity. }
  destruct r as [|[|c f] [|g fs]];
    try (unfold csv_row; rewrite forallb_app, Hj; cbn [forallb]; rewrite H10, andb_true_r;
         reflexivity).
  cbn. rewrite H34, H10. reflexivity.
Qed.

Lemma forallb_false_iff {A} (f : A -> bool) l :
  forallb f l = false <-> exists x, x ∈ l /\ f x = false.
Proof.
  induction l as [|x l IH]; cbn [forallb].
  - split; [discriminate|]. intros (y & Hy & _). apply not_elem_of_nil in Hy. contradiction.
  - rewrite andb_false_iff, IH. split.
    + intros [H | (y & Hy & Hf)]; [exists x; split; [left|]; assumption|].
      exists y. split; [right|]; assumption.
    + intros (y & Hy & Hf). apply elem_of_cons in Hy as [->|Hy]; [left; assumption|].
      right. exists y. split; assumption.
Qed.


Lemma export_to_csv_nonempty data filename : data <> [] ->
  export_to_csv data filename =
  match utf8_encode (concat (map csv_row (csv_rows data))) with
  | None => None
  | Some bytes =>
      Some (csv_href_prefix ++ b64encode bytes ++ csv_href_middle ++ filename ++ csv_href_suffix)
  end.
Proof.
  intros Hd. pose proof (df_of_filtered data) as E.
  destruct data as [|item data]; [congruence|].
  unfold export_to_csv, to_csv. rewrite E. reflexivity.
Qed.

Lemma scalar_csv_rows data :
  forallb (forallb (forallb scalar_value)) (csv_rows data) =
  forallb (fun item => forallb (fun col => forallb scalar_value (dget col item)) columns) data.
Proof.
  unfold csv_rows. cbn [forallb]. rewrite (eq_refl : forallb (forallb scalar_value) (map s2p columns) = true).
  cbn [andb]. induction data as [|item data IH]; [reflexivity|].
  cbn [map forallb]. rewrite IH. reflexivity.
Qed.

Lemma forallb_csv p rs : p 34 = true -> p 44 = true -> p 10 = true ->
  forallb p (concat (map csv_row rs)) = forallb (forallb (forallb p)) rs.
Proof.
  intros H34 H44 H10. induction rs as [|r rs IH]; [reflexivity|].
  cbn [map concat forallb]. rewrite forallb_app, forallb_csv_row, IH by assumption.
  reflexivity.
Qed.



(** X15: [export_to_csv] returns [None] exactly when the data is empty or
    some exported cell holds a code point that is not a Unicode scalar value
    (a surrogate), which makes [csv.encode()] raise. *)
Theorem export_to_csv_none (data : list dict) (filename : pstr) :
  export_to_csv data filename = None <->
  data = [] \/
  exists item col c, item ∈ data /\ col ∈ columns /\ c ∈ dget col item /\
                     scalar_value c = false.
Proof.
  destruct (decide (data = [])) as [->|Hd]; [split; [left|]; reflexivity|].
  rewrite export_to_csv_nonempty by assumption.
  assert (Hs : forallb scalar_value (concat (map csv_row (csv_rows data))) =
               forallb (fun item => forallb (fun col => forallb scalar_value (dget col item))
                                            columns) data).
  { rewrite forallb_csv, scalar_csv_rows by reflexivity. reflexivity. }
  destruct (utf8_encode _) eqn:E.
  - split; [discriminate|]. intros [?|(item & col & c & Hi & Hc & Hx & Hv)]; [contradiction|].
    exfalso. assert (Hf : forallb scalar_value (concat (map csv_row (csv_rows data))) = false).
    { rewrite Hs. apply forallb_false_iff. exists item. split; [assumption|].
      apply forallb_false_iff. exists col. split; [assumption|].
      apply forallb_false_iff. exists c. split; assumption. }
    apply utf8_encode_none in Hf. congruence.
  - apply utf8_encode_none in E. rewrite Hs in E. split; [intros _|reflexivity].
    right. apply forallb_false_iff in E as (item & Hi & E).
    apply forallb_false_iff in E as (col & Hc & E).
    apply forallb_false_iff in E as (c & Hx & E).
    exists item, col, c. repeat split; assumption.
Qed.



End CsvExport.
